(** * PitLink PQC chunk-delivery simulator: model and verified properties

    Shallow embedding of [weightedStatus], [randomFrom] and [generateRun]
    from [MonkOS/prototypes/pitlink_pqc/web/app.js].

    Modelling conventions.
    - JavaScript numbers that carry latencies and random draws are idealised
      as rationals ([Q], compared with [==]); counters and chunk ids are
      natural numbers.  The non-finite numbers the code can produce,
      [-Infinity] out of [Math.max()] with no arguments and [NaN] out of
      [Math.max] on a lane value that is not a number, are separate values
      of [jsnum].
    - [Math.random()] reads from a stream [rand : nat -> Q]; the position in
      the stream is part of the state, so that a run is a function of the
      scenario and of the stream.
    - Objects used as dictionaries ([priorityConfig], [laneDurations]) are
      [gmap string _], the map of their own keys; a read [o[key]] that finds
      no own key goes on to the members every plain object inherits from
      [Object.prototype] ([Object_get]), and a write to [__proto__] creates
      no own key ([Object_set]).
    - [undefined] is [None]; the [||] operator treats [undefined] and the
      empty string as falsy, as JavaScript does.
    - The local variables that the closures of [generateRun] mutate
      ([stats], [chunks], [chunkIndex], [laneDurations]) form the state of a
      small state monad. *)

From Stdlib Require Import QArith Qround Lqa Sorted.
From stdpp Require Import gmap strings list fin_maps pretty.

Local Open Scope Q_scope.

(** ** JavaScript values *)

(** The result of [Math.max(...xs) / 1000]. *)
Inductive jsnum : Type :=
  | Num (q : Q)
  | NegInfinity
  | NaN.

(** One step of [Math.max]: [NaN] is absorbing, [-Infinity] is neutral. *)
Definition jsmax (x y : jsnum) : jsnum :=
  match x, y with
  | NaN, _ | _, NaN => NaN
  | NegInfinity, _ => y
  | _, NegInfinity => x
  | Num p, Num q => if Qlt_le_dec p q then Num q else Num p
  end.

(** [Math.max(...xs)] on arguments already converted to numbers. *)
Definition Math_max (xs : list jsnum) : jsnum := foldl jsmax NegInfinity xs.

Definition jsdiv (x : jsnum) (d : Q) : jsnum :=
  match x with
  | Num p => Num (p / d)
  | NegInfinity => NegInfinity
  | NaN => NaN
  end.

(** The names of the members a plain object inherits from
    [Object.prototype]. *)
Definition Object_prototype_names : list string :=
  ["constructor"; "__defineGetter__"; "__defineSetter__"; "hasOwnProperty";
   "__lookupGetter__"; "__lookupSetter__"; "isPrototypeOf";
   "propertyIsEnumerable"; "toString"; "valueOf"; "__proto__";
   "toLocaleString"].

Definition inherited (key : string) : bool :=
  existsb (String.eqb key) Object_prototype_names.

(** What a read [o[key]] finds on a plain object: the value of an own key,
    a member inherited from [Object.prototype] (a function, or the prototype
    object itself for [__proto__]), or nothing ([undefined]). *)
Inductive member (V : Type) : Type :=
  | Own (v : V)
  | Inherited
  | Missing.
Global Arguments Own {V} v.
Global Arguments Inherited {V}.
Global Arguments Missing {V}.

(** [o[key]] *)
Definition Object_get {V} (o : gmap string V) (key : string) : member V :=
  match o !! key with
  | Some v => Own v
  | None => if inherited key then Inherited else Missing
  end.

(** [o[key] = v] for a primitive [v] on an object that started as [{}]:
    the inherited setter of [__proto__] ignores primitives, so that no own
    key is created. *)
Definition Object_set {V} (o : gmap string V) (key : string) (v : V)
    : gmap string V :=
  if String.eqb key "__proto__" then o else <[key := v]> o.

(** The value of a lane in [laneDurations]: a number of milliseconds, or the
    string left by [+] on an inherited member (the text of a function or
    [[object Object]], followed by digits), which is not a number. *)
Inductive laneValue : Type :=
  | LaneMs (q : Q)
  | LaneText.

(** The conversion [Math.max] applies to its arguments. *)
Definition ToNumber (v : laneValue) : jsnum :=
  match v with
  | LaneMs q => Num q
  | LaneText => NaN
  end.

(** Truthiness of a possibly undefined string. *)
Definition truthy (x : option string) : bool :=
  match x with
  | Some (String _ _) => true
  | _ => false
  end.

(** [x || y] on possibly undefined strings. *)
Definition jsOr (x y : option string) : option string :=
  if truthy x then x else y.

(** [x || d] where [d] is a string literal or a defined string. *)
Definition orDefault (x : option string) (d : string) : string :=
  match x with
  | Some (String a s) => String a s
  | _ => d
  end.

(** [x || 0] on a possibly undefined number. *)
Definition orZero (x : option Q) : Q :=
  match x with
  | Some q => if Qeq_bool q 0 then 0 else q
  | None => 0
  end.

(** Interpolation of a value in a template literal. *)
Definition render (x : option string) : string :=
  match x with
  | Some s => s
  | None => "undefined"
  end.

(** [array[i]] for an integer-valued index. *)
Definition Array_get {A} (array : list A) (i : Z) : option A :=
  if (i <? 0)%Z then None else array !! Z.to_nat i.

(** [array.find(pred)] *)
Fixpoint Array_find {A} (pred : A -> bool) (array : list A) : option A :=
  match array with
  | [] => None
  | x :: rest => if pred x then Some x else Array_find pred rest
  end.

(** [option !== basePath] *)
Definition strictNe (opt : string) (basePath : option string) : bool :=
  match basePath with
  | Some b => negb (String.eqb opt b)
  | None => true
  end.

(** ** Data *)

Inductive Status : Type := delivered | recovered | retransmit | dropped.

Global Instance Status_eq_dec : EqDecision Status.
Proof. solve_decision. Defined.

Definition STATUS_LABELS (s : Status) : string :=
  match s with
  | delivered => "Delivered cleanly"
  | recovered => "Recovered via Reed-Solomon FEC"
  | retransmit => "Retransmitted over QUIC"
  | dropped => "Dropped — manual follow-up"
  end.

Module LaneConfig.
(** An entry of [priorityConfig]; every field may be absent. *)
Record t : Type := mk {
  label : option string;
  baseMs : option Q;
  pathOptions : option (list string);
  fec : option string
}.
End LaneConfig.

(** A member inherited from [Object.prototype] read as a lane
    configuration: an object with none of the four fields. *)
Definition inheritedMember : LaneConfig.t :=
  LaneConfig.mk None None None None.

Module Bucket.
Record t : Type := mk { priority : string; count : nat }.
End Bucket.

Module Scenario.
Record t : Type := mk {
  priorityConfig : gmap string LaneConfig.t;
  buckets : list Bucket.t
}.
End Scenario.

Module Chunk.
Record t : Type := mk {
  id : nat;
  priority : string;
  status : Status;
  height : Q;
  path : option string;   (* [undefined] only for a draw outside [0,1) *)
  transferMs : Q;
  fec : string;
  note : string;
  label : string
}.
End Chunk.

Module Stats.
Record t : Type := mk {
  delivered : nat;
  recovered : nat;
  retransmit : nat;
  dropped : nat;
  total : nat
}.
End Stats.

Module Run.
Record t : Type := mk {
  chunks : list Chunk.t;
  stats : Stats.t;
  duration : jsnum;
  lossRate : Q
}.
End Run.

(** The three scenarios of the page share this shape; the motorsport one is
    kept as a concrete input. *)
Definition motorsport : Scenario.t :=
  Scenario.mk
    (<["P0" := LaneConfig.mk (Some "P0 — Strategy Delta") (Some 48)
                 (Some ["Trackside 5G"; "Low-Earth Orbit"]) (Some "RS(12,9)")]>
     (<["P1" := LaneConfig.mk (Some "P1 — Engineering Feeds") (Some 110)
                 (Some ["Trackside 5G"; "Low-Earth Orbit"]) (Some "RS(20,16)")]>
     (<["P2" := LaneConfig.mk (Some "P2 — Media + Archives") (Some 280)
                 (Some ["Low-Earth Orbit"; "Trackside 5G"]) (Some "RS(20,18)")]>
      ∅)))
    [Bucket.mk "P0" 18; Bucket.mk "P1" 22; Bucket.mk "P2" 26].

(** ** The state of a run and its monad *)

Record State : Type := mkState {
  nextDraw : nat;                  (* position in the random stream *)
  stats : Stats.t;
  chunks : list Chunk.t;
  chunkIndex : nat;
  laneDurations : gmap string laneValue
}.

Definition M (A : Type) : Type := State -> A * State.

Global Instance M_ret : MRet M := fun A a s => (a, s).
Global Instance M_bind : MBind M :=
  fun A B f m s => let (a, s') := m s in f a s'.

Definition gets {A} (f : State -> A) : M A := fun s => (f s, s).
Definition modify (f : State -> State) : M unit := fun s => (tt, f s).
Definition exec {A} (m : M A) (s : State) : State := snd (m s).

Definition set_nextDraw (n : nat) (s : State) : State :=
  mkState n (stats s) (chunks s) (chunkIndex s) (laneDurations s).
Definition set_stats (st : Stats.t) (s : State) : State :=
  mkState (nextDraw s) st (chunks s) (chunkIndex s) (laneDurations s).
Definition set_chunks (cs : list Chunk.t) (s : State) : State :=
  mkState (nextDraw s) (stats s) cs (chunkIndex s) (laneDurations s).
Definition set_chunkIndex (n : nat) (s : State) : State :=
  mkState (nextDraw s) (stats s) (chunks s) n (laneDurations s).
Definition set_laneDurations (m : gmap string laneValue) (s : State) : State :=
  mkState (nextDraw s) (stats s) (chunks s) (chunkIndex s) m.

(** [stats.<status> += 1] *)
Definition bump (k : Status) (st : Stats.t) : Stats.t :=
  match k with
  | delivered =>
      Stats.mk (S (Stats.delivered st)) (Stats.recovered st)
               (Stats.retransmit st) (Stats.dropped st) (Stats.total st)
  | recovered =>
      Stats.mk (Stats.delivered st) (S (Stats.recovered st))
               (Stats.retransmit st) (Stats.dropped st) (Stats.total st)
  | retransmit =>
      Stats.mk (Stats.delivered st) (Stats.recovered st)
               (S (Stats.retransmit st)) (Stats.dropped st) (Stats.total st)
  | dropped =>
      Stats.mk (Stats.delivered st) (Stats.recovered st)
               (Stats.retransmit st) (S (Stats.dropped st)) (Stats.total st)
  end.

Definition set_total (n : nat) (st : Stats.t) : Stats.t :=
  Stats.mk (Stats.delivered st) (Stats.recovered st)
           (Stats.retransmit st) (Stats.dropped st) n.

(** [for (let i = 0; i < count; i += 1) body] *)
Fixpoint forLoop (count : nat) (body : M unit) : M unit :=
  match count with
  | O => mret tt
  | S n => body ;; forLoop n body
  end.

(** [array.forEach(f)] *)
Fixpoint forEach {A} (array : list A) (f : A -> M unit) : M unit :=
  match array with
  | [] => mret tt
  | x :: rest => f x ;; forEach rest f
  end.

Definition Object_keys {V} (o : gmap string V) : list string := (map_to_list o).*1.
Definition Object_values {V} (o : gmap string V) : list V := (map_to_list o).*2.

(** ** The simulator *)

Section Simulator.

(** The stream behind [Math.random()]. *)
Variable rand : nat -> Q.

Definition Math_random : M Q :=
  fun s => (rand (nextDraw s), set_nextDraw (S (nextDraw s)) s).

Definition randomFrom (array : list string) : M (option string) :=
  r ← Math_random;
  mret (Array_get array (Qfloor (r * inject_Z (Z.of_nat (length array))))).

(** The body of [weightedStatus] once [roll] is drawn. *)
Definition statusOfRoll (priority : string) (roll : Q) : Status :=
  if String.eqb priority "P0" then
    if Qlt_le_dec roll 0.08 then recovered
    else if Qlt_le_dec roll 0.11 then retransmit
    else delivered
  else if String.eqb priority "P1" then
    if Qlt_le_dec roll 0.1 then recovered
    else if Qlt_le_dec roll 0.16 then retransmit
    else if Qlt_le_dec roll 0.18 then dropped
    else delivered
  else
    if Qlt_le_dec roll 0.12 then recovered
    else if Qlt_le_dec roll 0.22 then retransmit
    else if Qlt_le_dec roll 0.28 then dropped
    else delivered.

Definition weightedStatus (priority : string) : M Status :=
  roll ← Math_random;
  mret (statusOfRoll priority roll).

(** [priorityConfig[priority] || priorityConfig.P0]: an own entry or an
    inherited member is truthy; [P0] is not a name of [Object.prototype]. *)
Definition lookupConfig (priorityConfig : gmap string LaneConfig.t)
    (priority : string) : option LaneConfig.t :=
  match Object_get priorityConfig priority with
  | Own c => Some c
  | Inherited => Some inheritedMember
  | Missing => priorityConfig !! "P0"
  end.

(** [(x || 0) + effectiveMs] for the value [x] read from [laneDurations]:
    a sum of numbers, or a string as soon as [x] is a string or an
    inherited member. *)
Definition addMs (x : member laneValue) (effectiveMs : Q) : laneValue :=
  match x with
  | Own (LaneMs n) => LaneMs (orZero (Some n) + effectiveMs)
  | Own LaneText => LaneText
  | Inherited => LaneText
  | Missing => LaneMs (orZero None + effectiveMs)
  end.

(** [config && typeof config.baseMs === 'number' ? config.baseMs : 120] *)
Definition resolveBaseMs (config : option LaneConfig.t) : Q :=
  match config with
  | Some c => match LaneConfig.baseMs c with Some b => b | None => 120 end
  | None => 120
  end.

(** [config.pathOptions] when it is a non-empty array, else the one-element
    array [['Primary link']]. *)
Definition resolvePathOptions (config : option LaneConfig.t) : list string :=
  match config ≫= LaneConfig.pathOptions with
  | Some (p :: ps) => p :: ps
  | _ => ["Primary link"]
  end.

(** [config?.fec || 'RS(12,9)'] *)
Definition resolveFec (config : option LaneConfig.t) : string :=
  orDefault (config ≫= LaneConfig.fec) "RS(12,9)".

(** [pathOptions.find((option) => option !== basePath) || basePath] *)
Definition chooseAlternate (pathOptions : list string)
    (basePath : option string) : option string :=
  jsOr (Array_find (fun opt => strictNe opt basePath) pathOptions) basePath.

(** One iteration of the inner [for] loop. *)
Definition loopBody (priority : string) (config : option LaneConfig.t)
    (baseMs : Q) (pathOptions : list string) (fecCode : string) : M unit :=
  modify (fun s => set_chunkIndex (S (chunkIndex s)) s) ;;
  status ← weightedStatus priority;
  basePath ← randomFrom pathOptions;
  let path := basePath in
  let note := STATUS_LABELS status +:+ " via " +:+ render path in
  jitter ← Math_random;
  let effectiveMs := baseMs + jitter * baseMs * 0.9 in
  '(path, note, effectiveMs) ←
    match status with
    | recovered =>
        modify (fun s => set_stats (bump recovered (stats s)) s) ;;
        mret (path,
              STATUS_LABELS status +:+ " (" +:+ fecCode +:+ " on "
                +:+ render path +:+ ")",
              effectiveMs)
    | retransmit =>
        modify (fun s => set_stats (bump retransmit (stats s)) s) ;;
        let alternate := chooseAlternate pathOptions basePath in
        mret (Some (render basePath +:+ " → " +:+ render alternate),
              STATUS_LABELS status +:+ " — switched to " +:+ render alternate,
              effectiveMs + baseMs * 0.6)
    | dropped =>
        modify (fun s => set_stats (bump dropped (stats s)) s) ;;
        mret (path,
              STATUS_LABELS status +:+ " (" +:+ fecCode +:+ " exhausted)",
              effectiveMs + baseMs)
    | delivered =>
        modify (fun s => set_stats (bump delivered (stats s)) s) ;;
        mret (path, note, effectiveMs)
    end;
  modify (fun s =>
    set_laneDurations
      (Object_set (laneDurations s) priority
         (addMs (Object_get (laneDurations s) priority) effectiveMs)) s) ;;
  h ← Math_random;
  idx ← gets chunkIndex;
  modify (fun s =>
    set_chunks
      (chunks s ++
         [Chunk.mk idx priority status (45 + h * 55) path effectiveMs fecCode
            note (orDefault (config ≫= LaneConfig.label) priority)]) s).

(** The callback of [buckets.forEach]. *)
Definition runBucket (priorityConfig : gmap string LaneConfig.t)
    (b : Bucket.t) : M unit :=
  let priority := Bucket.priority b in
  let config := lookupConfig priorityConfig priority in
  let baseMs := resolveBaseMs config in
  let pathOptions := resolvePathOptions config in
  let fecCode := resolveFec config in
  forLoop (Bucket.count b) (loopBody priority config baseMs pathOptions fecCode).

Definition initialState (priorityConfig : gmap string LaneConfig.t) : State :=
  mkState 0 (Stats.mk 0 0 0 0 0) [] 0
    (foldl (fun acc key => Object_set acc key (LaneMs 0)) ∅
       (Object_keys priorityConfig)).

Definition computeLossRate (st : Stats.t) : Q :=
  if (0 <? Stats.total st)%nat then
    inject_Z (Z.of_nat (Stats.recovered st + Stats.retransmit st
                        + Stats.dropped st))
    / inject_Z (Z.of_nat (Stats.total st))
  else 0.

Definition generateRun (scenario : Scenario.t) : Run.t :=
  let priorityConfig := Scenario.priorityConfig scenario in
  let s := exec (forEach (Scenario.buckets scenario) (runBucket priorityConfig))
                (initialState priorityConfig) in
  let stats' := set_total (length (chunks s)) (stats s) in
  let duration :=
    jsdiv (Math_max (ToNumber <$> Object_values (laneDurations s))) 1000 in
  Run.mk (chunks s) stats' duration (computeLossRate stats').

End Simulator.

(** ** Closed forms used in the statements *)

(** What the branches on [status] add to [effectiveMs]. *)
Definition adjustLatency (status : Status) (baseMs effectiveMs : Q) : Q :=
  match status with
  | retransmit => effectiveMs + baseMs * 0.6
  | dropped => effectiveMs + baseMs
  | _ => effectiveMs
  end.

(** The chunk pushed by one iteration, as a function of the lane settings,
    of the value of [chunkIndex] and of the four draws of the iteration
    (outcome, path, jitter, height, in the order the code draws them). *)
Definition chunkFromDraws (priority : string) (config : option LaneConfig.t)
    (baseMs : Q) (pathOptions : list string) (fecCode : string)
    (idx : nat) (roll pathDraw jitter h : Q) : Chunk.t :=
  let status := statusOfRoll priority roll in
  let basePath :=
    Array_get pathOptions
      (Qfloor (pathDraw * inject_Z (Z.of_nat (length pathOptions)))) in
  let alternate := chooseAlternate pathOptions basePath in
  Chunk.mk idx priority status (45 + h * 55)
    (match status with
     | retransmit => Some (render basePath +:+ " → " +:+ render alternate)
     | _ => basePath
     end)
    (adjustLatency status baseMs (baseMs + jitter * baseMs * 0.9))
    fecCode
    (match status with
     | delivered => STATUS_LABELS status +:+ " via " +:+ render basePath
     | recovered =>
         STATUS_LABELS status +:+ " (" +:+ fecCode +:+ " on "
           +:+ render basePath +:+ ")"
     | retransmit =>
         STATUS_LABELS status +:+ " — switched to " +:+ render alternate
     | dropped => STATUS_LABELS status +:+ " (" +:+ fecCode +:+ " exhausted)"
     end)
    (orDefault (config ≫= LaneConfig.label) priority).

(** The [k]-th chunk of a run (counting from 0) whose lane is [priority]. *)
Definition chunkAt (rand : nat -> Q) (priorityConfig : gmap string LaneConfig.t)
    (k : nat) (priority : string) : Chunk.t :=
  let config := lookupConfig priorityConfig priority in
  chunkFromDraws priority config (resolveBaseMs config)
    (resolvePathOptions config) (resolveFec config) (S k)
    (rand (4 * k)%nat) (rand (4 * k + 1)%nat)
    (rand (4 * k + 2)%nat) (rand (4 * k + 3)%nat).

(** The iterations of a run in order: one entry per chunk, naming its lane. *)
Definition lanePriorities (buckets : list Bucket.t) : list string :=
  flat_map (fun b => replicate (Bucket.count b) (Bucket.priority b)) buckets.

(** One iteration for lane [priority], as a state transformer. *)
Definition step (rand : nat -> Q) (priorityConfig : gmap string LaneConfig.t)
    (s : State) (priority : string) : State :=
  let config := lookupConfig priorityConfig priority in
  exec (loopBody rand priority config (resolveBaseMs config)
          (resolvePathOptions config) (resolveFec config)) s.

Definition countStatus (k : Status) (cs : list Chunk.t) : nat :=
  length (filter (fun c => Chunk.status c = k) cs).



(** The state after all the batches. *)
Definition finalState (rand : nat -> Q) (scenario : Scenario.t) : State :=
  foldl (step rand (Scenario.priorityConfig scenario))
    (initialState (Scenario.priorityConfig scenario))
    (lanePriorities (Scenario.buckets scenario)).

(** ** The outcome sampler as the specification words it

    Section 4.1 of the specification gives, per priority, a table of
    half-open bands in the kind order recovered, retransmit, dropped,
    delivered; the first band that contains the draw wins and a draw in no
    band is [delivered].  P0 has no dropped band. *)

Definition bands (priority : string) : list (Status * (Q * Q)) :=
  if String.eqb priority "P0" then
    [(recovered, (0, 0.08)); (retransmit, (0.08, 0.11));
     (delivered, (0.11, 1))]
  else if String.eqb priority "P1" then
    [(recovered, (0, 0.10)); (retransmit, (0.10, 0.16));
     (dropped, (0.16, 0.18)); (delivered, (0.18, 1))]
  else
    [(recovered, (0, 0.12)); (retransmit, (0.12, 0.22));
     (dropped, (0.22, 0.28)); (delivered, (0.28, 1))].

Definition inBand (r : Q) (band : Q * Q) : bool :=
  Qle_bool (fst band) r && negb (Qle_bool (snd band) r).

Definition sample (priority : string) (randomUnit : Q) : Status :=
  match Array_find (fun b => inBand randomUnit (snd b)) (bands priority) with
  | Some b => fst b
  | None => delivered
  end.

(** The data-model condition on configured base latencies, in its weak and
    strict forms. *)
Definition basesNonNegative (priorityConfig : gmap string LaneConfig.t) : Prop :=
  forall p cfg b,
    priorityConfig !! p = Some cfg -> LaneConfig.baseMs cfg = Some b -> 0 <= b.

Definition basesPositive (priorityConfig : gmap string LaneConfig.t) : Prop :=
  forall p cfg b,
    priorityConfig !! p = Some cfg -> LaneConfig.baseMs cfg = Some b -> 0 < b.

(** The scenario of the literal example of the specification: one P0 chunk,
    [baseMs] 48, paths A and B. *)
Definition literalScenario : Scenario.t :=
  Scenario.mk
    (<["P0" := LaneConfig.mk None (Some 48) (Some ["A"; "B"]) (Some "RS(12,9)")]> ∅)
    [Bucket.mk "P0" 1].

(** A scenario without any lane: nothing configured, nothing to send. *)
Definition emptyScenario : Scenario.t := Scenario.mk ∅ [].

(** A lane whose second candidate path has the empty name. *)
Definition namelessPathScenario : Scenario.t :=
  Scenario.mk
    (<["P0" := LaneConfig.mk None (Some 48) (Some ["A"; EmptyString])
                 (Some "RS(12,9)")]> ∅)
    [Bucket.mk "P0" 1].

(** The fallback path as the specification words it: the first entry that
    differs from the primary, or the primary when there is none. *)
Definition chooseFallback (paths : list string) (primary : string) : string :=
  match Array_find (fun p => negb (String.eqb p primary)) paths with
  | Some p => p
  | None => primary
  end.

(** A batch for the unconfigured priority P3 run against the motorsport
    lane configuration. *)
Definition unconfiguredScenario : Scenario.t :=
  Scenario.mk (Scenario.priorityConfig motorsport) [Bucket.mk "P3" 1].

(** The chunk that iteration [k] would push for lane [priority] under the
    lane settings [config] (each absent field replaced by its default). *)
Definition chunkUnder (rand : nat -> Q) (config : option LaneConfig.t)
    (k : nat) (priority : string) : Chunk.t :=
  chunkFromDraws priority config (resolveBaseMs config)
    (resolvePathOptions config) (resolveFec config) (S k)
    (rand (4 * k)%nat) (rand (4 * k + 1)%nat)
    (rand (4 * k + 2)%nat) (rand (4 * k + 3)%nat).

(** The reading of the specification for unconfigured priorities: every
    chunk whose priority has no entry is simulated under the default lane
    (120 ms, the single path Primary link, RS(12,9)). *)
Definition usesDefaultLane (rand : nat -> Q) (scenario : Scenario.t) : Prop :=
  forall k c,
    Run.chunks (generateRun rand scenario) !! k = Some c ->
    Scenario.priorityConfig scenario !! Chunk.priority c = None ->
    c = chunkUnder rand None k (Chunk.priority c).

(** ** Display helpers: [stripeLabel], [summary] and the summary line

    Integers are interpolated in decimal ([pretty]).  [toFixed] is the
    builtin [Number.prototype.toFixed]; it is a parameter of the model. *)

(** The line feed of the template literal of [stripeLabel]. *)
Definition LF : string := String (Ascii.ascii_of_nat 10) EmptyString.

(** [scenario.priorityConfig[chunk.priority]?.label || chunk.priority]: a
    member inherited from [Object.prototype] has no [label], so that only an
    own entry can supply one. *)
Definition stripeName (chunk : Chunk.t) (scenario : Scenario.t) : string :=
  orDefault
    (Scenario.priorityConfig scenario !! Chunk.priority chunk
       ≫= LaneConfig.label)
    (Chunk.priority chunk).

Section Display.

Variable toFixed : nat -> Q -> string.

Definition stripeLabel (chunk : Chunk.t) (scenario : Scenario.t) : string :=
  let label := stripeName chunk scenario in
  "Chunk " +:+ pretty (Chunk.id chunk) +:+ LF +:+ label +:+ LF
    +:+ Chunk.note chunk +:+ LF
    +:+ toFixed 0 (Chunk.transferMs chunk) +:+ "ms · " +:+ Chunk.fec chunk.

End Display.

(** The [summary] methods of the three scenarios. *)
Definition motorsport_summary (stats : Stats.t) : string :=
  if Nat.eqb (Stats.dropped stats) 0
  then "P0 SLA intact — all strategy deltas landed before the pit wall freeze."
  else "Manual follow-up required — archive footage needs a resend.".

Definition mobility_summary (stats : Stats.t) : string :=
  if Nat.eqb (Stats.dropped stats) 0
  then "Every pod acknowledges the safety kernel inside 1.5 seconds."
  else "Flag a depot stop — a few pods missed their update window.".

Definition manufacturing_summary (stats : Stats.t) : string :=
  if Nat.eqb (Stats.dropped stats) 0
  then "Digital twin stays green — robotics cycle closes with interlocks intact."
  else "Alert the OT engineer — resend the ESG ledger chunks over fiber.".

(** The text [renderRun] writes to the summary element, for the [summary]
    method of the current scenario. *)
Definition summaryText (summary : Stats.t -> string) (stats : Stats.t) : string :=
  let highlight := summary stats in
  "Simulated run: "
    +:+ pretty (Z.of_nat (Stats.total stats) - Z.of_nat (Stats.dropped stats))%Z
    +:+ "/" +:+ pretty (Stats.total stats) +:+ " chunks secured, "
    +:+ pretty (Stats.recovered stats) +:+ " repaired with FEC, "
    +:+ pretty (Stats.retransmit stats) +:+ " retransmitted. " +:+ highlight.

(** [freeOf a s]: the character [a] does not occur in [s]. *)
Fixpoint freeOf (a : Ascii.ascii) (s : string) : Prop :=
  match s with
  | EmptyString => True
  | String b rest => b <> a /\ freeOf a rest
  end.

(** The lanes of the manufacturing scenario, whose P0 entry differs from
    the default lane in every field. *)
Definition manufacturingConfig : gmap string LaneConfig.t :=
  <["P0" := LaneConfig.mk (Some "P0 — Safety Interlocks") (Some 55)
              (Some ["Fiber Backbone"; "Industrial 5G"]) (Some "RS(18,13)")]>
  (<["P1" := LaneConfig.mk (Some "P1 — Machine Telemetry") (Some 130)
              (Some ["Industrial 5G"; "Fiber Backbone"]) (Some "RS(20,15)")]>
  (<["P2" := LaneConfig.mk (Some "P2 — Sustainability Ledger") (Some 260)
              (Some ["LoRa Supervisory"; "Fiber Backbone"]) (Some "RS(22,18)")]>
   ∅)).



(** A priority that is not configured and is the name of a member of
    [Object.prototype]: the first read of its lane finds that member. *)
Definition inheritedLane (priorityConfig : gmap string LaneConfig.t)
    (priority : string) : Prop :=
  priorityConfig !! priority = None /\ inherited priority = true.

(** * Properties *)

(** ** One iteration *)

Lemma loopBody_exec rand priority config baseMs pathOptions fecCode s :
  exec (loopBody rand priority config baseMs pathOptions fecCode) s =
  let n := nextDraw s in
  let c := chunkFromDraws priority config baseMs pathOptions fecCode
             (S (chunkIndex s)) (rand n) (rand (S n)) (rand (S (S n)))
             (rand (S (S (S n)))) in
  mkState (S (S (S (S n)))) (bump (Chunk.status c) (stats s))
    (chunks s ++ [c]) (S (chunkIndex s))
    (Object_set (laneDurations s) priority
       (addMs (Object_get (laneDurations s) priority) (Chunk.transferMs c))).
Proof.
  unfold exec, loopBody, weightedStatus, randomFrom, Math_random, chunkFromDraws.
  unfold mbind, M_bind, mret, M_ret, modify, gets. simpl.
  destruct (statusOfRoll priority (rand (nextDraw s))); reflexivity.
Qed.

Lemma step_eq rand pc s p :
  step rand pc s p =
  let c := chunkFromDraws p (lookupConfig pc p)
             (resolveBaseMs (lookupConfig pc p))
             (resolvePathOptions (lookupConfig pc p))
             (resolveFec (lookupConfig pc p))
             (S (chunkIndex s)) (rand (nextDraw s)) (rand (S (nextDraw s)))
             (rand (S (S (nextDraw s)))) (rand (S (S (S (nextDraw s))))) in
  mkState (S (S (S (S (nextDraw s))))) (bump (Chunk.status c) (stats s))
    (chunks s ++ [c]) (S (chunkIndex s))
    (Object_set (laneDurations s) p
       (addMs (Object_get (laneDurations s) p) (Chunk.transferMs c))).
Proof. unfold step. apply loopBody_exec. Qed.

(** ** The loops as a fold over the iterations *)

Lemma exec_bind {A B} (m : M A) (k : A -> M B) s :
  exec (m ≫= k) s = exec (k (m s).1) (m s).2.
Proof. unfold exec, mbind, M_bind. destruct (m s); reflexivity. Qed.

Lemma forLoop_exec body n s :
  exec (forLoop n body) s = Nat.iter n (exec body) s.
Proof.
  revert s; induction n as [|n IH]; intros s; [reflexivity|].
  cbn [forLoop]. rewrite exec_bind, IH.
  change ((body s).2) with (exec body s).
  symmetry. apply Nat.iter_succ_r.
Qed.

Lemma foldl_replicate {A B} (f : A -> B -> A) (x : B) n a :
  foldl f a (replicate n x) = Nat.iter n (fun a => f a x) a.
Proof.
  revert a; induction n as [|n IH]; intros a; [reflexivity|].
  cbn [replicate foldl]. rewrite IH.
  symmetry. apply (Nat.iter_succ_r n (fun a => f a x)).
Qed.

Lemma runBucket_exec rand pc b s :
  exec (runBucket rand pc b) s =
  foldl (step rand pc) s (replicate (Bucket.count b) (Bucket.priority b)).
Proof. unfold runBucket. rewrite forLoop_exec, foldl_replicate. reflexivity. Qed.

Lemma forEach_exec rand pc bs s :
  exec (forEach bs (runBucket rand pc)) s =
  foldl (step rand pc) s (lanePriorities bs).
Proof.
  revert s; induction bs as [|b bs IH]; intros s; [reflexivity|].
  cbn [forEach lanePriorities flat_map]. rewrite exec_bind, foldl_app.
  change ((runBucket rand pc b s).2) with (exec (runBucket rand pc b) s).
  rewrite runBucket_exec. apply IH.
Qed.

(** Induction over the iterations already executed. *)
Lemma iterations_ind {A S} (f : S -> A -> S) (P : list A -> S -> Prop) s0 :
  P [] s0 ->
  (forall l x s, P l s -> P (l ++ [x]) (f s x)) ->
  forall l, P l (foldl f s0 l).
Proof.
  intros H0 Hstep l. induction l as [|x l IH] using rev_ind; [exact H0|].
  rewrite foldl_app. cbn [foldl]. apply Hstep, IH.
Qed.

Lemma generateRun_eq rand scenario :
  generateRun rand scenario =
  let s := finalState rand scenario in
  let stats' := set_total (length (chunks s)) (stats s) in
  Run.mk (chunks s) stats'
    (jsdiv (Math_max (ToNumber <$> Object_values (laneDurations s))) 1000)
    (computeLossRate stats').
Proof. unfold generateRun, finalState. rewrite forEach_exec. reflexivity. Qed.

(** ** The chunk sequence *)

Lemma finalState_chunks rand scenario :
  let s := finalState rand scenario in
  let ps := lanePriorities (Scenario.buckets scenario) in
  nextDraw s = (4 * length ps)%nat /\ chunkIndex s = length ps /\
  chunks s = imap (chunkAt rand (Scenario.priorityConfig scenario)) ps.
Proof.
  cbv zeta. unfold finalState.
  apply (iterations_ind (step rand (Scenario.priorityConfig scenario))
           (fun ps s => nextDraw s = (4 * length ps)%nat /\
                        chunkIndex s = length ps /\
                        chunks s = imap (chunkAt rand _) ps)).
  - repeat split.
  - intros l p s (Hd & Hi & Hc). rewrite step_eq. cbn.
    rewrite length_app, imap_app, Hc, Hd, Hi. cbn [length imap].
    repeat split; [lia | lia |]. f_equal. unfold chunkAt.
    rewrite Nat.add_0_r.
    replace (4 * length l + 1)%nat with (S (4 * length l)) by lia.
    replace (4 * length l + 2)%nat with (S (S (4 * length l))) by lia.
    replace (4 * length l + 3)%nat with (S (S (S (4 * length l)))) by lia.
    reflexivity.
Qed.

Lemma generateRun_chunks rand scenario :
  Run.chunks (generateRun rand scenario) =
  imap (chunkAt rand (Scenario.priorityConfig scenario))
       (lanePriorities (Scenario.buckets scenario)).
Proof. rewrite generateRun_eq. cbn. apply finalState_chunks. Qed.

Lemma chunkAt_priority rand pc k p : Chunk.priority (chunkAt rand pc k p) = p.
Proof. reflexivity. Qed.

Lemma chunkAt_id rand pc k p : Chunk.id (chunkAt rand pc k p) = S k.
Proof. reflexivity. Qed.

Lemma generateRun_priorities rand scenario :
  Chunk.priority <$> Run.chunks (generateRun rand scenario) =
  lanePriorities (Scenario.buckets scenario).
Proof.
  rewrite generateRun_chunks, fmap_imap.
  rewrite (imap_ext _ (const id)) by reflexivity.
  rewrite imap_const. apply list_fmap_id.
Qed.

Lemma generateRun_lookup rand scenario k c :
  Run.chunks (generateRun rand scenario) !! k = Some c ->
  exists p, lanePriorities (Scenario.buckets scenario) !! k = Some p /\
            c = chunkAt rand (Scenario.priorityConfig scenario) k p.
Proof.
  rewrite generateRun_chunks, list_lookup_imap.
  destruct (lanePriorities _ !! k) as [p|]; [|discriminate].
  cbn. intros [= <-]. eauto.
Qed.

Lemma generateRun_elem_of rand scenario c :
  c ∈ Run.chunks (generateRun rand scenario) ->
  exists k p, c = chunkAt rand (Scenario.priorityConfig scenario) k p.
Proof.
  intros [k Hk]%list_elem_of_lookup.
  apply generateRun_lookup in Hk as (p & _ & ->). eauto.
Qed.

(** ** The counters *)

Lemma countStatus_snoc k cs c :
  countStatus k (cs ++ [c]) =
  (countStatus k cs + if decide (Chunk.status c = k) then 1 else 0)%nat.
Proof.
  unfold countStatus. rewrite filter_app, length_app. f_equal.
  rewrite filter_cons, filter_nil. destruct (decide _); reflexivity.
Qed.

Lemma countStatus_total cs :
  (countStatus delivered cs + countStatus recovered cs
   + countStatus retransmit cs + countStatus dropped cs)%nat = length cs.
Proof.
  induction cs as [|c cs IH] using rev_ind; [reflexivity|].
  rewrite !countStatus_snoc, length_app. cbn [length].
  destruct (Chunk.status c); repeat case_decide; try congruence; lia.
Qed.

Lemma finalState_stats rand scenario :
  let s := finalState rand scenario in
  Stats.delivered (stats s) = countStatus delivered (chunks s) /\
  Stats.recovered (stats s) = countStatus recovered (chunks s) /\
  Stats.retransmit (stats s) = countStatus retransmit (chunks s) /\
  Stats.dropped (stats s) = countStatus dropped (chunks s).
Proof.
  cbv zeta. unfold finalState.
  apply (iterations_ind (step rand (Scenario.priorityConfig scenario))
           (fun _ s =>
              Stats.delivered (stats s) = countStatus delivered (chunks s) /\
              Stats.recovered (stats s) = countStatus recovered (chunks s) /\
              Stats.retransmit (stats s) = countStatus retransmit (chunks s) /\
              Stats.dropped (stats s) = countStatus dropped (chunks s))).
  - repeat split.
  - intros _ p s (Hd & Hr & Ht & Hx). rewrite step_eq. cbv zeta.
    set (c := chunkFromDraws _ _ _ _ _ _ _ _ _ _).
    cbn [stats chunks]. rewrite !countStatus_snoc.
    destruct (Chunk.status c); cbn [bump Stats.delivered Stats.recovered
      Stats.retransmit Stats.dropped]; repeat case_decide; try congruence;
      repeat split; lia.
Qed.

Lemma finalState_counters_total rand scenario :
  let s := finalState rand scenario in
  (Stats.delivered (stats s) + Stats.recovered (stats s)
   + Stats.retransmit (stats s) + Stats.dropped (stats s))%nat
  = length (chunks s).
Proof.
  cbv zeta. destruct (finalState_stats rand scenario) as (Hd & Hr & Ht & Hx).
  rewrite Hd, Hr, Ht, Hx. apply countStatus_total.
Qed.

(** ** Rational sums and [Math.max] *)





Lemma Math_max_nil : Math_max [] = NegInfinity.
Proof. reflexivity. Qed.


Lemma jsmax_NaN_l y : jsmax NaN y = NaN.
Proof. reflexivity. Qed.





(** ** Lane durations *)







Lemma inheritedLane_dec pc p : inheritedLane pc p \/ ~ inheritedLane pc p.
Proof.
  unfold inheritedLane. destruct (pc !! p); [right; intros [? _]; discriminate|].
  destruct (inherited p); [left; done | right; intros [_ ?]; discriminate].
Qed.


(** ** The outcome sampler *)

Lemma inBand_true r lo hi : lo <= r -> r < hi -> inBand r (lo, hi) = true.
Proof.
  intros Hlo Hhi. unfold inBand. cbn [fst snd].
  apply andb_true_intro. split; [now apply Qle_bool_iff|].
  apply negb_true_iff. destruct (Qle_bool hi r) eqn:E; [|reflexivity].
  apply Qle_bool_iff in E. lra.
Qed.

Lemma inBand_above r lo hi : hi <= r -> inBand r (lo, hi) = false.
Proof.
  intros Hhi. unfold inBand. cbn [fst snd].
  apply andb_false_intro2, negb_false_iff. now apply Qle_bool_iff.
Qed.

Ltac band_cases :=
  repeat match goal with
         | |- context [Qlt_le_dec ?a ?b] => destruct (Qlt_le_dec a b)
         end;
  cbn [Array_find snd fst];
  repeat first
    [ rewrite inBand_true by lra
    | rewrite inBand_above by lra ];
  try reflexivity; try lra.

Lemma statusOfRoll_sample priority roll :
  0 <= roll -> roll < 1 -> statusOfRoll priority roll = sample priority roll.
Proof.
  intros H0 H1. unfold statusOfRoll, sample, bands.
  destruct (String.eqb priority "P0"); [band_cases|].
  destruct (String.eqb priority "P1"); band_cases.
Qed.

Lemma statusOfRoll_P0 roll : statusOfRoll "P0" roll <> dropped.
Proof.
  unfold statusOfRoll. cbn [String.eqb Ascii.eqb Bool.eqb].
  repeat destruct (Qlt_le_dec _ _); discriminate.
Qed.

(** C1. For every draw, the outcome sampler at priority P0 never answers
    [dropped]; hence no chunk of any run whose priority is P0 has the
    outcome [dropped]. *)
Theorem P0_never_dropped :
  (forall roll, statusOfRoll "P0" roll <> dropped) /\
  (forall rand priority s,
     priority = "P0" -> (weightedStatus rand priority s).1 <> dropped) /\
  (forall rand scenario c,
     c ∈ Run.chunks (generateRun rand scenario) ->
     Chunk.priority c = "P0" -> Chunk.status c <> dropped).
Proof.
  split; [exact statusOfRoll_P0|]. split.
  - intros rand priority s ->. apply statusOfRoll_P0.
  - intros rand scenario c (k & p & ->)%generateRun_elem_of.
    rewrite chunkAt_priority. intros ->. apply statusOfRoll_P0.
Qed.

(** C4. On draws in [0,1) the sampler of the code is the first-match reading
    of the band table (kind order recovered, retransmit, dropped, delivered),
    [weightedStatus] answers with the band of the draw it takes, and the four
    literal samples of the specification hold. *)
Theorem weightedStatus_bands :
  (forall priority roll,
     0 <= roll -> roll < 1 -> statusOfRoll priority roll = sample priority roll) /\
  (forall rand priority s,
     weightedStatus rand priority s =
     (statusOfRoll priority (rand (nextDraw s)),
      set_nextDraw (S (nextDraw s)) s)) /\
  statusOfRoll "P0" 0.05 = recovered /\
  statusOfRoll "P0" 0.50 = delivered /\
  statusOfRoll "P1" 0.17 = dropped /\
  statusOfRoll "P2" 0.25 = dropped.
Proof.
  split; [exact statusOfRoll_sample|].
  split; [reflexivity|]. repeat split.
Qed.

Lemma weightedStatus_bands_witness :
  statusOfRoll "P1" 0.17 = sample "P1" 0.17.
Proof.
  apply (proj1 weightedStatus_bands "P1" 0.17); vm_compute;
    [discriminate | reflexivity].
Defined.

Lemma P0_never_dropped_witness :
  let rand := fun _ : nat => 0.09 in
  Chunk.status (chunkAt rand (Scenario.priorityConfig motorsport) 0 "P0")
    <> dropped /\
  (weightedStatus rand "P0"
     (initialState (Scenario.priorityConfig motorsport))).1 <> dropped.
Proof.
  intros rand. split.
  - apply (proj2 (proj2 P0_never_dropped) rand motorsport).
    + apply (list_elem_of_lookup_2 _ 0%nat). vm_compute. reflexivity.
    + reflexivity.
  - apply (proj1 (proj2 P0_never_dropped) rand "P0"). reflexivity.
Defined.

(** ** Counters, ids and order *)

(** C5. In every run the four outcome counters are the tallies of the chunk
    sequence by outcome, they add up to [total], and [total] is the length of
    the chunk sequence. *)
Theorem stats_partition rand scenario :
  let run := generateRun rand scenario in
  let st := Run.stats run in
  (Stats.delivered st + Stats.recovered st + Stats.retransmit st
   + Stats.dropped st)%nat = Stats.total st /\
  Stats.total st = length (Run.chunks run) /\
  Stats.delivered st = countStatus delivered (Run.chunks run) /\
  Stats.recovered st = countStatus recovered (Run.chunks run) /\
  Stats.retransmit st = countStatus retransmit (Run.chunks run) /\
  Stats.dropped st = countStatus dropped (Run.chunks run).
Proof.
  cbv zeta. rewrite generateRun_eq. cbn.
  destruct (finalState_stats rand scenario) as (Hd & Hr & Ht & Hx).
  rewrite Hd, Hr, Ht, Hx. repeat split. apply countStatus_total.
Qed.

Lemma StronglySorted_seq j n : StronglySorted lt (seq j n).
Proof.
  revert j; induction n as [|n IH]; intros j; cbn; constructor; [apply IH|].
  apply Forall_forall. intros x Hx%elem_of_seq. lia.
Qed.

Lemma generateRun_ids rand scenario :
  Chunk.id <$> Run.chunks (generateRun rand scenario) =
  seq 1 (length (Run.chunks (generateRun rand scenario))).
Proof.
  rewrite generateRun_chunks, fmap_imap, length_imap.
  rewrite (imap_ext _ (fun j _ => S j)) by reflexivity.
  rewrite imap_seq_0. apply fmap_S_seq.
Qed.

(** C6. The ids of the chunks of a run, read in sequence order, are
    1, 2, ..., n (so they are unique, strictly increasing and without gaps,
    and the k-th chunk has id k); the sequence lists the chunks batch after
    batch, each batch contributing [count] consecutive chunks of its
    priority. *)
Theorem ids_sequential rand scenario :
  let cs := Run.chunks (generateRun rand scenario) in
  Chunk.id <$> cs = seq 1 (length cs) /\
  NoDup (Chunk.id <$> cs) /\
  StronglySorted lt (Chunk.id <$> cs) /\
  Chunk.priority <$> cs =
    flat_map (fun b => replicate (Bucket.count b) (Bucket.priority b))
             (Scenario.buckets scenario).
Proof.
  cbv zeta. rewrite generateRun_ids. repeat split.
  - apply NoDup_seq.
  - apply StronglySorted_seq.
  - apply generateRun_priorities.
Qed.

(** ** Loss rate *)

Lemma inject_nat_pos n : (0 < n)%nat -> 0 < inject_Z (Z.of_nat n).
Proof. intros H. unfold Qlt. cbn. lia. Qed.

(** C7. The loss rate of a run is (recovered + retransmit + dropped) / total
    when total is positive and 0 when total is 0; it always lies in [0,1]. *)
Theorem lossRate_spec rand scenario :
  let run := generateRun rand scenario in
  let st := Run.stats run in
  ((0 < Stats.total st)%nat ->
   Run.lossRate run ==
   inject_Z (Z.of_nat (Stats.recovered st + Stats.retransmit st
                       + Stats.dropped st))
   / inject_Z (Z.of_nat (Stats.total st))) /\
  (Stats.total st = 0%nat -> Run.lossRate run == 0) /\
  0 <= Run.lossRate run /\ Run.lossRate run <= 1.
Proof.
  cbv zeta. pose proof (finalState_counters_total rand scenario) as Hsum.
  rewrite generateRun_eq. cbv zeta in *.
  cbn [Run.lossRate Run.stats Run.chunks].
  unfold computeLossRate, set_total.
  cbn [Stats.total Stats.recovered Stats.retransmit Stats.dropped
       Stats.delivered].
  set (n := length (chunks (finalState rand scenario))) in *.
  set (st := stats (finalState rand scenario)) in *.
  destruct (Nat.ltb_spec 0 n) as [Hpos|Hz].
  - split; [reflexivity|]. split; [lia|]. split.
    + apply Qle_shift_div_l; [now apply inject_nat_pos|].
      rewrite Qmult_0_l. change 0 with (inject_Z 0). rewrite <- Zle_Qle. lia.
    + apply Qle_shift_div_r; [now apply inject_nat_pos|].
      rewrite Qmult_1_l, <- Zle_Qle. lia.
  - split; [lia|]. split; [reflexivity|]. split; discriminate.
Qed.

Lemma lossRate_spec_witness :
  Run.lossRate (generateRun (fun _ => 0.17) motorsport) == (48 # 66) /\
  Run.lossRate (generateRun (fun _ => 0.17) emptyScenario) == 0.
Proof.
  split.
  - rewrite (proj1 (lossRate_spec (fun _ => 0.17) motorsport)).
    + vm_compute. reflexivity.
    + vm_compute. lia.
  - apply (proj1 (proj2 (lossRate_spec (fun _ => 0.17) emptyScenario))).
    reflexivity.
Defined.

(** ** Latency *)

Lemma statusOfRoll_comp priority r r' :
  r == r' -> statusOfRoll priority r = statusOfRoll priority r'.
Proof.
  intros E. unfold statusOfRoll.
  destruct (String.eqb priority "P0");
    [|destruct (String.eqb priority "P1")];
    repeat destruct (Qlt_le_dec _ _); try reflexivity; lra.
Qed.

Lemma adjustLatency_ge status baseMs effectiveMs :
  0 <= baseMs -> effectiveMs <= adjustLatency status baseMs effectiveMs.
Proof. intros H. destruct status; cbn; lra. Qed.

Lemma jitter_range baseMs jitter :
  0 <= baseMs -> 0 <= jitter -> 0 <= jitter * baseMs * 0.9.
Proof.
  intros Hb Hj. apply Qmult_le_0_compat; [|lra].
  now apply Qmult_le_0_compat.
Qed.

Lemma jitter_below baseMs jitter :
  0 < baseMs -> jitter < 1 -> jitter * baseMs * 0.9 < baseMs * 0.9.
Proof.
  intros Hb Hj.
  assert (H : jitter * baseMs < 1 * baseMs) by now apply Qmult_lt_compat_r.
  rewrite Qmult_1_l in H. apply Qmult_lt_compat_r; [reflexivity | exact H].
Qed.

(** C9. The [k]-th chunk of a run takes its outcome from draw [4k] and its
    jitter from draw [4k+2]; its [transferMs] is [baseMs + jitter*baseMs*0.9],
    plus [baseMs*0.6] for a retransmit and plus [baseMs] for a drop, and
    nothing more for delivered and recovered.  With a draw in [0,1) and a
    positive [baseMs] the jitter term lies in [0, baseMs*0.9).  In the literal
    scenario with draws 0.5, 0, 0 the run has the single chunk id 1, P0,
    delivered, path A, transferMs 48. *)
Theorem latency_formula :
  (forall rand scenario k c,
     Run.chunks (generateRun rand scenario) !! k = Some c ->
     let baseMs :=
       resolveBaseMs
         (lookupConfig (Scenario.priorityConfig scenario) (Chunk.priority c)) in
     let effectiveMs := baseMs + rand (4 * k + 2)%nat * baseMs * 0.9 in
     Chunk.status c = statusOfRoll (Chunk.priority c) (rand (4 * k)%nat) /\
     Chunk.transferMs c =
       match Chunk.status c with
       | retransmit => effectiveMs + baseMs * 0.6
       | dropped => effectiveMs + baseMs
       | delivered | recovered => effectiveMs
       end) /\
  (forall baseMs jitter,
     0 < baseMs -> 0 <= jitter -> jitter < 1 ->
     0 <= jitter * baseMs * 0.9 /\ jitter * baseMs * 0.9 < baseMs * 0.9) /\
  (forall rand,
     rand 0%nat == 0.5 -> rand 1%nat == 0 -> rand 2%nat == 0 ->
     exists c,
       Run.chunks (generateRun rand literalScenario) = [c] /\
       Chunk.id c = 1%nat /\ Chunk.priority c = "P0" /\
       Chunk.status c = delivered /\ Chunk.path c = Some "A" /\
       Chunk.transferMs c == 48).
Proof.
  split; [|split].
  - intros rand scenario k c (p & _ & ->)%generateRun_lookup. cbv zeta.
    rewrite chunkAt_priority. unfold chunkAt, chunkFromDraws.
    cbn [Chunk.status Chunk.transferMs]. split; [reflexivity|].
    destruct (statusOfRoll p _); reflexivity.
  - intros baseMs jitter Hb Hj0 Hj1. split.
    + apply jitter_range; lra.
    + now apply jitter_below.
  - intros rand H0 H1 H2. rewrite generateRun_chunks.
    exists (chunkAt rand (Scenario.priorityConfig literalScenario) 0 "P0").
    split; [reflexivity|]. unfold chunkAt.
    replace (lookupConfig (Scenario.priorityConfig literalScenario) "P0")
      with (Some (LaneConfig.mk None (Some 48) (Some ["A"; "B"])
                    (Some "RS(12,9)"))) by reflexivity.
    change (resolveBaseMs (Some _)) with 48.
    change (resolvePathOptions (Some _)) with ["A"; "B"].
    change (4 * 0)%nat with 0%nat. change (0 + 1)%nat with 1%nat.
    change (0 + 2)%nat with 2%nat.
    unfold chunkFromDraws.
    cbn [Chunk.id Chunk.priority Chunk.status Chunk.path Chunk.transferMs].
    rewrite (statusOfRoll_comp "P0" _ 0.5) by exact H0.
    change (statusOfRoll "P0" 0.5) with delivered.
    cbn [adjustLatency length]. rewrite H1, H2.
    repeat split.
Qed.

Lemma latency_formula_witness :
  let rand := fun n => match n with O => 0.5 | _ => 0 end in
  let c := chunkAt rand (Scenario.priorityConfig literalScenario) 0 "P0" in
  Chunk.status c = statusOfRoll "P0" (rand 0%nat) /\
  (exists c,
     Run.chunks (generateRun rand literalScenario) = [c] /\
     Chunk.id c = 1%nat /\ Chunk.priority c = "P0" /\
     Chunk.status c = delivered /\ Chunk.path c = Some "A" /\
     Chunk.transferMs c == 48) /\
  (0 <= (1 # 2) * 48 * 0.9 /\ (1 # 2) * 48 * 0.9 < 48 * 0.9).
Proof.
  intros rand c. split; [|split].
  - apply (proj1 latency_formula rand literalScenario 0%nat c). reflexivity.
  - apply (proj2 (proj2 latency_formula) rand); reflexivity.
  - apply (proj1 (proj2 latency_formula) 48 (1 # 2));
      vm_compute; first [discriminate | reflexivity].
Defined.

Lemma resolveBaseMs_nonneg pc p :
  basesNonNegative pc -> 0 <= resolveBaseMs (lookupConfig pc p).
Proof.
  intros H. unfold lookupConfig, Object_get, resolveBaseMs.
  destruct (pc !! p) as [cfg|] eqn:E.
  - destruct (LaneConfig.baseMs cfg) eqn:Eb; [now apply (H p cfg) | lra].
  - destruct (inherited p); [cbn; lra|].
    destruct (pc !! "P0") as [cfg|] eqn:E0; [|lra].
    destruct (LaneConfig.baseMs cfg) eqn:Eb; [now apply (H "P0" cfg) | lra].
Qed.

Lemma resolveBaseMs_pos pc p :
  basesPositive pc -> 0 < resolveBaseMs (lookupConfig pc p).
Proof.
  intros H. unfold lookupConfig, Object_get, resolveBaseMs.
  destruct (pc !! p) as [cfg|] eqn:E.
  - destruct (LaneConfig.baseMs cfg) eqn:Eb; [now apply (H p cfg) | lra].
  - destruct (inherited p); [cbn; lra|].
    destruct (pc !! "P0") as [cfg|] eqn:E0; [|lra].
    destruct (LaneConfig.baseMs cfg) eqn:Eb; [now apply (H "P0" cfg) | lra].
Qed.

Lemma chunkAt_transferMs_ge rand pc k p :
  (forall n, 0 <= rand n) -> 0 <= resolveBaseMs (lookupConfig pc p) ->
  resolveBaseMs (lookupConfig pc p) <= Chunk.transferMs (chunkAt rand pc k p).
Proof.
  intros Hr Hb. unfold chunkAt, chunkFromDraws. cbn [Chunk.transferMs].
  set (b := resolveBaseMs _) in *.
  eapply Qle_trans; [|apply adjustLatency_ge; exact Hb].
  pose proof (jitter_range b (rand (4 * k + 2)%nat) Hb (Hr _)). lra.
Qed.

Lemma motorsport_bases_positive :
  basesPositive (Scenario.priorityConfig motorsport).
Proof.
  intros p cfg b Hl Hb. cbn [motorsport Scenario.priorityConfig] in Hl.
  repeat (rewrite lookup_insert in Hl; case_decide);
    try rewrite lookup_empty in Hl; simplify_eq; cbn in Hb;
    injection Hb as <-; reflexivity.
Qed.

(** C10. With non-negative draws and non-negative configured base latencies
    (the data model asks for positive ones), every chunk of a run has a
    [transferMs] at least the base latency its lane resolves to; when every
    configured base latency is positive, every [transferMs] is positive. *)
Theorem transferMs_at_least_base rand scenario c :
  (forall n, 0 <= rand n) ->
  basesNonNegative (Scenario.priorityConfig scenario) ->
  c ∈ Run.chunks (generateRun rand scenario) ->
  resolveBaseMs
    (lookupConfig (Scenario.priorityConfig scenario) (Chunk.priority c))
    <= Chunk.transferMs c /\
  (basesPositive (Scenario.priorityConfig scenario) -> 0 < Chunk.transferMs c).
Proof.
  intros Hr Hb (k & p & ->)%generateRun_elem_of. rewrite chunkAt_priority.
  pose proof (resolveBaseMs_nonneg _ p Hb) as H0.
  pose proof (chunkAt_transferMs_ge rand _ k p Hr H0) as Hge.
  split; [exact Hge|]. intros Hpos.
  pose proof (resolveBaseMs_pos _ p Hpos). lra.
Qed.

Lemma transferMs_at_least_base_witness :
  let rand := fun _ : nat => 0.17 in
  let c := chunkAt rand (Scenario.priorityConfig motorsport) 18 "P1" in
  110 <= Chunk.transferMs c /\ 0 < Chunk.transferMs c.
Proof.
  intros rand c.
  assert (Hr : forall n, 0 <= rand n) by (intros n; vm_compute; discriminate).
  assert (Hb : basesNonNegative (Scenario.priorityConfig motorsport)).
  { intros p cfg b Hl Hc. apply Qlt_le_weak.
    exact (motorsport_bases_positive p cfg b Hl Hc). }
  assert (Hc : c ∈ Run.chunks (generateRun rand motorsport)).
  { apply (list_elem_of_lookup_2 _ 18%nat). vm_compute. reflexivity. }
  destruct (transferMs_at_least_base rand motorsport c Hr Hb Hc) as [H1 H2].
  split; [exact H1 | exact (H2 motorsport_bases_positive)].
Defined.

(** ** Duration *)







(** C3. On the scenario without lanes (empty lane configuration, no batch)
    the run has no chunk and a total of 0, and the duration the code returns
    is [-Infinity], the value of [Math.max()] without arguments divided by
    1000, which is neither 0 nor a non-negative number. *)
Theorem duration_without_lanes rand :
  let run := generateRun rand emptyScenario in
  Run.chunks run = [] /\ Stats.total (Run.stats run) = 0%nat /\
  Run.duration run = NegInfinity.
Proof. cbv zeta. repeat split. Qed.

(** ** Path failover *)

Lemma chooseAlternate_named paths primary :
  Forall (fun p => p <> EmptyString) paths ->
  chooseAlternate paths (Some primary) = Some (chooseFallback paths primary).
Proof.
  intros Hall. unfold chooseAlternate, chooseFallback, strictNe.
  induction Hall as [|p ps Hp _ IH]; [reflexivity|].
  cbn [Array_find]. destruct (negb (String.eqb p primary)); [|exact IH].
  destruct p; [now destruct Hp | reflexivity].
Qed.

Lemma chooseAlternate_single p : chooseAlternate [p] (Some p) = Some p.
Proof.
  unfold chooseAlternate, strictNe. cbn [Array_find].
  now rewrite String.eqb_refl.
Qed.

Lemma Qfloor_unit x : 0 <= x -> x < 1 -> Qfloor x = 0%Z.
Proof.
  intros H0 H1.
  pose proof (Qfloor_le x) as Hlo. pose proof (Qlt_floor x) as Hhi.
  assert (Ha : inject_Z (Qfloor x) < inject_Z 1)
    by (change (inject_Z 1) with 1; lra).
  assert (Hb : inject_Z (-1) < inject_Z (Qfloor x)).
  { rewrite inject_Z_plus in Hhi. change (inject_Z 1) with 1 in Hhi.
    change (inject_Z (-1)) with (-(1)). lra. }
  rewrite <- Zlt_Qlt in Ha, Hb. lia.
Qed.

Lemma single_path_retransmit priority config baseMs fecCode idx p
    roll pathDraw jitter h :
  0 <= pathDraw -> pathDraw < 1 ->
  statusOfRoll priority roll = retransmit ->
  Chunk.path (chunkFromDraws priority config baseMs [p] fecCode idx
                roll pathDraw jitter h)
  = Some (p +:+ " → " +:+ p).
Proof.
  intros H0 H1 Hs. unfold chunkFromDraws. cbn [Chunk.path length].
  rewrite Hs. rewrite Qfloor_unit.
  - cbn [Array_get Z.ltb Z.compare Z.to_nat lookup list_lookup].
    rewrite chooseAlternate_single. reflexivity.
  - change (inject_Z (Z.of_nat 1)) with 1. lra.
  - change (inject_Z (Z.of_nat 1)) with 1. lra.
Qed.

(** C8. On the candidate list A, (empty name) with primary A, the first entry
    that differs from the primary is the empty name, yet the code falls back
    to A itself: [||] discards the empty string that [find] returned.  A
    retransmitted chunk of that lane is displayed with path A → A. *)
Theorem fallback_discards_empty_name :
  let paths := ["A"; EmptyString] in
  let rand := fun n : nat => match n with O => 0.09 | _ => 0 end in
  chooseFallback paths "A" = EmptyString /\
  Array_find (fun opt => strictNe opt (Some "A")) paths = Some EmptyString /\
  chooseAlternate paths (Some "A") = Some "A" /\
  Chunk.status <$> Run.chunks (generateRun rand namelessPathScenario)
    = [retransmit] /\
  Chunk.path <$> Run.chunks (generateRun rand namelessPathScenario)
    = [Some "A → A"].
Proof. cbv zeta. repeat split. Qed.

(** ** Unconfigured priorities *)

Lemma lookupConfig_unconfigured pc p :
  pc !! p = None -> inherited p = false -> lookupConfig pc p = pc !! "P0".
Proof. intros H Hi. unfold lookupConfig, Object_get. now rewrite H, Hi. Qed.

Lemma lookupConfig_inherited pc p :
  pc !! p = None -> inherited p = true ->
  lookupConfig pc p = Some inheritedMember.
Proof. intros H Hi. unfold lookupConfig, Object_get. now rewrite H, Hi. Qed.

Lemma chunkUnder_inheritedMember rand k p :
  chunkUnder rand (Some inheritedMember) k p = chunkUnder rand None k p.
Proof. reflexivity. Qed.

Lemma chunkAt_chunkUnder rand pc k p :
  chunkAt rand pc k p = chunkUnder rand (lookupConfig pc p) k p.
Proof. reflexivity. Qed.

(** With the motorsport lanes, a chunk of the unconfigured priority P3 is
    not simulated under the default lane: it travels over a path of P0. *)
Lemma unconfigured_lane_counterexample :
  ~ usesDefaultLane (fun _ => 0.5) unconfiguredScenario.
Proof.
  intros H.
  specialize (H 0%nat
    (chunkAt (fun _ => 0.5) (Scenario.priorityConfig unconfiguredScenario)
       0 "P3") eq_refl eq_refl).
  apply (f_equal Chunk.path) in H. vm_compute in H. discriminate H.
Qed.

(** C2, amended. A run pushes exactly one chunk per requested iteration,
    whatever the priorities of the batches.  A chunk whose priority has no
    entry in the lane configuration is simulated under the entry of P0 when
    there is one (each absent field of it replaced by its default), unless
    its priority is the name of a member inherited from [Object.prototype];
    it is simulated under the default lane, 120 ms, the single path
    Primary link and RS(12,9), when P0 has no entry either or when its
    priority is such a name. *)
Theorem unconfigured_lane_falls_back_to_P0 :
  (forall rand scenario,
     length (Run.chunks (generateRun rand scenario)) =
     length (lanePriorities (Scenario.buckets scenario))) /\
  (resolveBaseMs None = 120 /\ resolvePathOptions None = ["Primary link"] /\
   resolveFec None = "RS(12,9)") /\
  (forall rand scenario k c,
     Run.chunks (generateRun rand scenario) !! k = Some c ->
     Scenario.priorityConfig scenario !! Chunk.priority c = None ->
     (inherited (Chunk.priority c) = false ->
      c = chunkUnder rand (Scenario.priorityConfig scenario !! "P0") k
            (Chunk.priority c)) /\
     (inherited (Chunk.priority c) = true \/
      Scenario.priorityConfig scenario !! "P0" = None ->
      c = chunkUnder rand None k (Chunk.priority c))).
Proof.
  split; [|split].
  - intros rand scenario. now rewrite generateRun_chunks, length_imap.
  - repeat split.
  - intros rand scenario k c (p & _ & ->)%generateRun_lookup.
    rewrite chunkAt_priority. intros Hnone. rewrite chunkAt_chunkUnder.
    split.
    + intros Hi. now rewrite (lookupConfig_unconfigured _ _ Hnone Hi).
    + destruct (inherited p) eqn:Hi.
      * intros _. rewrite (lookupConfig_inherited _ _ Hnone Hi).
        apply chunkUnder_inheritedMember.
      * intros [?|H0]; [discriminate|].
        now rewrite (lookupConfig_unconfigured _ _ Hnone Hi), H0.
Qed.

Lemma unconfigured_lane_falls_back_to_P0_witness :
  let rand := fun _ : nat => 0.5 in
  let pc := manufacturingConfig in
  let c := chunkAt rand pc 0 "P3" in
  let c' := chunkAt rand ∅ 0 "P3" in
  let c'' := chunkAt rand pc 0 "constructor" in
  (c = chunkUnder rand (pc !! "P0") 0 "P3" /\
   Chunk.path c = Some "Industrial 5G" /\ Chunk.fec c = "RS(18,13)" /\
   Chunk.transferMs c == 79.75) /\
  (c' = chunkUnder rand None 0 "P3" /\
   Chunk.path c' = Some "Primary link" /\ Chunk.fec c' = "RS(12,9)" /\
   Chunk.transferMs c' == 174) /\
  (c'' = chunkUnder rand None 0 "constructor" /\
   Chunk.path c'' = Some "Primary link" /\ Chunk.fec c'' = "RS(12,9)" /\
   Chunk.label c'' = "constructor" /\ Chunk.transferMs c'' == 174).
Proof.
  intros rand pc c c' c''.
  destruct (proj2 (proj2 unconfigured_lane_falls_back_to_P0)
              rand (Scenario.mk pc [Bucket.mk "P3" 1]) 0%nat c)
    as [H1 _]; [vm_compute; reflexivity ..|].
  destruct (proj2 (proj2 unconfigured_lane_falls_back_to_P0)
              rand (Scenario.mk ∅ [Bucket.mk "P3" 1]) 0%nat c')
    as [_ H2]; [vm_compute; reflexivity ..|].
  destruct (proj2 (proj2 unconfigured_lane_falls_back_to_P0)
              rand (Scenario.mk pc [Bucket.mk "constructor" 1]) 0%nat c'')
    as [_ H3]; [vm_compute; reflexivity ..|].
  split; [|split]; split.
  - apply H1. vm_compute. reflexivity.
  - vm_compute. repeat split.
  - apply H2. right. vm_compute. reflexivity.
  - vm_compute. repeat split.
  - apply H3. left. vm_compute. reflexivity.
  - vm_compute. repeat split.
Defined.

(** * Further properties of the simulator *)

(** ** [randomFrom] *)

Lemma Qfloor_between x z :
  inject_Z z <= x -> x < inject_Z (z + 1) -> Qfloor x = z.
Proof.
  intros Hlo Hhi.
  pose proof (Qfloor_le x) as Hfl. pose proof (Qlt_floor x) as Hfu.
  assert (Ha : inject_Z (Qfloor x) < inject_Z (z + 1)) by lra.
  assert (Hb : inject_Z z < inject_Z (Qfloor x + 1)) by lra.
  rewrite <- Zlt_Qlt in Ha, Hb. lia.
Qed.

Lemma Array_get_of_nat {A} (array : list A) (i : nat) :
  Array_get array (Z.of_nat i) = array !! i.
Proof.
  unfold Array_get. destruct (Z.ltb_spec (Z.of_nat i) 0); [lia|].
  now rewrite Nat2Z.id.
Qed.

Lemma randomFrom_value rand array s :
  (randomFrom rand array s).1 =
  Array_get array
    (Qfloor (rand (nextDraw s) * inject_Z (Z.of_nat (length array)))).
Proof. reflexivity. Qed.

(** X1. [randomFrom] cuts [0,1) into [length array] bands of equal width:
    it answers the entry of index [i] exactly on the draws [r] with
    [i <= r * length < i + 1]. *)
Theorem randomFrom_band rand array s i :
  inject_Z (Z.of_nat i) <= rand (nextDraw s) * inject_Z (Z.of_nat (length array)) ->
  rand (nextDraw s) * inject_Z (Z.of_nat (length array)) < inject_Z (Z.of_nat i + 1) ->
  (randomFrom rand array s).1 = array !! i.
Proof.
  intros Hlo Hhi. rewrite randomFrom_value.
  rewrite (Qfloor_between _ (Z.of_nat i)) by assumption.
  apply Array_get_of_nat.
Qed.

Lemma randomFrom_band_witness :
  (randomFrom (fun _ => 0.5) ["Trackside 5G"; "Low-Earth Orbit"]
     (initialState ∅)).1 = Some "Low-Earth Orbit".
Proof.
  apply (randomFrom_band (fun _ => 0.5) ["Trackside 5G"; "Low-Earth Orbit"]
           (initialState ∅) 1%nat); vm_compute; [discriminate | reflexivity].
Defined.

Lemma unit_draw_index r (n : nat) :
  0 <= r -> r < 1 -> (0 < n)%nat ->
  (0 <= Qfloor (r * inject_Z (Z.of_nat n)) < Z.of_nat n)%Z.
Proof.
  intros H0 H1 Hn. set (x := r * inject_Z (Z.of_nat n)).
  pose proof (inject_nat_pos n Hn) as Hpos.
  assert (Hx0 : 0 <= x) by (apply Qmult_le_0_compat; lra).
  assert (Hx1 : x < inject_Z (Z.of_nat n)).
  { assert (H : x < 1 * inject_Z (Z.of_nat n))
      by now apply Qmult_lt_compat_r.
    now rewrite Qmult_1_l in H. }
  pose proof (Qfloor_le x) as Hfl. pose proof (Qlt_floor x) as Hfu.
  assert (Ha : inject_Z (Qfloor x) < inject_Z (Z.of_nat n)) by lra.
  assert (Hb : inject_Z (-1) < inject_Z (Qfloor x)).
  { rewrite inject_Z_plus in Hfu. change (inject_Z 1) with 1 in Hfu.
    change (inject_Z (-1)) with (-(1)). lra. }
  rewrite <- Zlt_Qlt in Ha, Hb. lia.
Qed.

Lemma Array_get_unit_draw {A} (array : list A) r :
  0 <= r -> r < 1 -> array <> [] ->
  exists x, Array_get array (Qfloor (r * inject_Z (Z.of_nat (length array))))
            = Some x /\ x ∈ array.
Proof.
  intros H0 H1 Hne.
  assert (Hlen : (0 < length array)%nat) by (destruct array; [done | cbn; lia]).
  pose proof (unit_draw_index r (length array) H0 H1 Hlen) as [Hi0 Hi1].
  set (z := Qfloor _) in *.
  destruct (lookup_lt_is_Some_2 array (Z.to_nat z)) as [x Hx]; [lia|].
  exists x. split; [|now apply list_elem_of_lookup_2 in Hx].
  unfold Array_get. destruct (Z.ltb_spec z 0); [lia | exact Hx].
Qed.

(** X2. On a non-empty array and a draw in [0,1), [randomFrom] answers an
    entry of the array, never [undefined], and takes exactly one draw; on
    the empty array it answers [undefined] whatever the draw. *)
Theorem randomFrom_defined :
  (forall rand array s,
     array <> [] -> 0 <= rand (nextDraw s) -> rand (nextDraw s) < 1 ->
     exists x, randomFrom rand array s = (Some x, set_nextDraw (S (nextDraw s)) s)
               /\ x ∈ array) /\
  (forall rand s, (randomFrom rand [] s).1 = None).
Proof.
  split.
  - intros rand array s Hne H0 H1.
    destruct (Array_get_unit_draw array _ H0 H1 Hne) as (x & Hx & Hin).
    exists x. split; [|exact Hin].
    unfold randomFrom, Math_random, mbind, M_bind, mret, M_ret.
    now rewrite Hx.
  - intros rand s. rewrite randomFrom_value. cbn [length].
    change (inject_Z (Z.of_nat 0)) with 0. rewrite Qmult_0_r. reflexivity.
Qed.

Lemma randomFrom_defined_witness :
  exists x, randomFrom (fun _ => 0.75) ["A"; "B"; "C"] (initialState ∅)
            = (Some x, set_nextDraw 1 (initialState ∅)) /\ x ∈ ["A"; "B"; "C"].
Proof.
  apply (proj1 randomFrom_defined (fun _ => 0.75) ["A"; "B"; "C"]
           (initialState ∅)); [discriminate | vm_compute; discriminate
                               | vm_compute; reflexivity].
Defined.

(** ** [weightedStatus] across priorities *)

(** X3. The sampler orders the priorities by loss-proneness: a draw that is
    delivered at some priority is delivered at P0, and at P1 as well unless
    that priority is P0; a draw below 0.08 is recovered and a draw of at
    least 0.28 is delivered whatever the priority. *)
Theorem delivered_grows_with_priority :
  (forall priority roll,
     statusOfRoll priority roll = delivered ->
     statusOfRoll "P0" roll = delivered /\
     (priority <> "P0" -> statusOfRoll "P1" roll = delivered)) /\
  (forall priority roll, roll < 0.08 -> statusOfRoll priority roll = recovered) /\
  (forall priority roll, 0.28 <= roll -> statusOfRoll priority roll = delivered).
Proof.
  split; [|split].
  - intros priority roll. unfold statusOfRoll.
    destruct (String.eqb_spec priority "P0") as [->|Hne0].
    + cbn [String.eqb Ascii.eqb Bool.eqb]. intros H. split; [exact H | done].
    + destruct (String.eqb_spec priority "P1") as [->|Hne1];
        cbn [String.eqb Ascii.eqb Bool.eqb];
        repeat destruct (Qlt_le_dec _ _); try discriminate;
        try (intros _; split; [reflexivity | intros _; reflexivity]); lra.
  - intros priority roll H. unfold statusOfRoll.
    destruct (String.eqb priority "P0"); [|destruct (String.eqb priority "P1")];
      repeat destruct (Qlt_le_dec _ _); try reflexivity; lra.
  - intros priority roll H. unfold statusOfRoll.
    destruct (String.eqb priority "P0"); [|destruct (String.eqb priority "P1")];
      repeat destruct (Qlt_le_dec _ _); try reflexivity; lra.
Qed.

Lemma delivered_grows_with_priority_witness :
  (statusOfRoll "P0" 0.2 = delivered /\ statusOfRoll "P1" 0.2 = delivered) /\
  statusOfRoll "P7" 0.05 = recovered /\ statusOfRoll "P7" 0.3 = delivered.
Proof.
  split; [|split].
  - destruct (proj1 delivered_grows_with_priority "P1" 0.2 eq_refl) as [H0 H1].
    split; [exact H0 | apply H1; discriminate].
  - apply (proj1 (proj2 delivered_grows_with_priority)). reflexivity.
  - apply (proj2 (proj2 delivered_grows_with_priority)).
    vm_compute. discriminate.
Defined.

(** ** How runs compose *)

Lemma lanePriorities_app bs bs' :
  lanePriorities (bs ++ bs') = lanePriorities bs ++ lanePriorities bs'.
Proof. unfold lanePriorities. apply flat_map_app. Qed.

Lemma lanePriorities_length bs :
  length (lanePriorities bs) = sum_list (Bucket.count <$> bs).
Proof.
  induction bs as [|b bs IH]; [reflexivity|].
  cbn [lanePriorities flat_map fmap list_fmap sum_list].
  rewrite length_app, length_replicate. f_equal. exact IH.
Qed.

Lemma generateRun_same_iterations rand pc bs bs' :
  lanePriorities bs = lanePriorities bs' ->
  generateRun rand (Scenario.mk pc bs) = generateRun rand (Scenario.mk pc bs').
Proof.
  intros H. rewrite !generateRun_eq. unfold finalState.
  cbn [Scenario.priorityConfig Scenario.buckets]. now rewrite H.
Qed.

(** X4. The [k]-th chunk of a run depends on the random stream only through
    the four draws of its own iteration: two streams that agree on the draws
    [4k], [4k+1], [4k+2] and [4k+3] give the same [k]-th chunk. *)
Theorem chunk_depends_on_own_draws rand rand' scenario k :
  (forall i, (i < 4)%nat -> rand (4 * k + i)%nat = rand' (4 * k + i)%nat) ->
  Run.chunks (generateRun rand scenario) !! k =
  Run.chunks (generateRun rand' scenario) !! k.
Proof.
  intros H. rewrite !generateRun_chunks, !list_lookup_imap.
  destruct (lanePriorities _ !! k) as [p|]; [|reflexivity].
  cbn. unfold chunkAt.
  rewrite <- (H 1%nat), <- (H 2%nat), <- (H 3%nat) by lia.
  pose proof (H 0%nat ltac:(lia)) as H0. rewrite Nat.add_0_r in H0.
  now rewrite H0.
Qed.

Lemma chunk_depends_on_own_draws_witness :
  Run.chunks (generateRun (fun n => if (n <? 4)%nat then 0.3 else 0.9)
                motorsport) !! 0%nat =
  Run.chunks (generateRun (fun _ => 0.3) motorsport) !! 0%nat.
Proof.
  apply (chunk_depends_on_own_draws
           (fun n => if (n <? 4)%nat then 0.3 else 0.9) (fun _ => 0.3)
           motorsport 0).
  intros i Hi. cbn [Nat.mul Nat.add].
  destruct (Nat.ltb_spec i 4); [reflexivity | lia].
Defined.

(** X5. Batches that follow do not disturb what was already simulated: the
    chunk sequence of a run over [bs] is a prefix of the chunk sequence of
    the run over [bs ++ bs'] on the same stream and lanes. *)
Theorem earlier_chunks_unchanged rand pc bs bs' :
  Run.chunks (generateRun rand (Scenario.mk pc bs))
  `prefix_of` Run.chunks (generateRun rand (Scenario.mk pc (bs ++ bs'))).
Proof.
  rewrite !generateRun_chunks. cbn [Scenario.priorityConfig Scenario.buckets].
  rewrite lanePriorities_app, imap_app. now eexists.
Qed.

(** X6. A batch with count 0 has no effect: removing it from the bucket
    list leaves the whole result of [generateRun] (chunks, counters,
    duration and loss rate) unchanged. *)
Theorem zero_count_batch_is_neutral rand pc bs priority bs' :
  generateRun rand (Scenario.mk pc (bs ++ Bucket.mk priority 0 :: bs')) =
  generateRun rand (Scenario.mk pc (bs ++ bs')).
Proof.
  apply generateRun_same_iterations.
  rewrite !lanePriorities_app. reflexivity.
Qed.

(** X7. Only the sequence of iterations matters: a batch of [m + n] chunks
    gives the same result as a batch of [m] followed by a batch of [n] of
    the same priority. *)
Theorem batch_split rand pc bs priority m n bs' :
  generateRun rand
    (Scenario.mk pc (bs ++ Bucket.mk priority (m + n) :: bs')) =
  generateRun rand
    (Scenario.mk pc (bs ++ Bucket.mk priority m :: Bucket.mk priority n :: bs')).
Proof.
  apply generateRun_same_iterations.
  rewrite !lanePriorities_app. f_equal.
  cbn [lanePriorities flat_map Bucket.count Bucket.priority].
  now rewrite replicate_add, <- app_assoc.
Qed.

(** X8. The total of a run is the sum of the counts of its batches. *)
Theorem total_is_sum_of_counts rand scenario :
  Stats.total (Run.stats (generateRun rand scenario)) =
  sum_list (Bucket.count <$> Scenario.buckets scenario).
Proof.
  rewrite generateRun_eq. cbn.
  destruct (finalState_chunks rand scenario) as (_ & _ & ->).
  now rewrite length_imap, lanePriorities_length.
Qed.

(** X9. A run consumes exactly four draws per chunk, and none besides:
    after all the batches the position in the random stream is four times
    the sum of the counts. *)
Theorem four_draws_per_chunk rand scenario :
  nextDraw
    (exec (forEach (Scenario.buckets scenario)
             (runBucket rand (Scenario.priorityConfig scenario)))
          (initialState (Scenario.priorityConfig scenario))) =
  (4 * sum_list (Bucket.count <$> Scenario.buckets scenario))%nat.
Proof.
  rewrite forEach_exec.
  destruct (finalState_chunks rand scenario) as (Hd & _ & _).
  unfold finalState in Hd. rewrite Hd. now rewrite lanePriorities_length.
Qed.

(** ** The fields of a chunk *)

Lemma resolvePathOptions_nonempty config : resolvePathOptions config <> [].
Proof.
  unfold resolvePathOptions.
  destruct (config ≫= LaneConfig.pathOptions) as [[|p ps]|]; discriminate.
Qed.

Lemma Array_find_Some {A} (pred : A -> bool) array x :
  Array_find pred array = Some x -> x ∈ array /\ pred x = true.
Proof.
  induction array as [|y ys IH]; [discriminate|]. cbn [Array_find].
  destruct (pred y) eqn:E.
  - intros [= <-]. split; [left | exact E].
  - intros [Hin Hp]%IH. split; [now right | exact Hp].
Qed.

Lemma Array_find_first {A} (pred : A -> bool) array q :
  q ∈ array -> pred q = true -> is_Some (Array_find pred array).
Proof.
  induction array as [|y ys IH]; intros Hin Hq; [now apply not_elem_of_nil in Hin|].
  cbn [Array_find]. destruct (pred y) eqn:E; [now eexists|].
  apply elem_of_cons in Hin as [->|Hin]; [congruence | now apply IH].
Qed.

Lemma chooseAlternate_elem pathOptions base :
  base ∈ pathOptions ->
  exists alt, chooseAlternate pathOptions (Some base) = Some alt /\
              alt ∈ pathOptions.
Proof.
  intros Hb. unfold chooseAlternate, jsOr.
  destruct (Array_find _ pathOptions) as [x|] eqn:E; cbn [truthy].
  - apply Array_find_Some in E as [Hin _].
    destruct x; [exists base | eexists]; split; done.
  - exists base. split; done.
Qed.

(** X10. With a path draw in [0,1), the path of every chunk is defined and
    built from the candidate paths its lane resolves to: one of them for a
    delivered, recovered or dropped chunk, and two of them joined by an
    arrow for a retransmitted chunk. *)
Theorem chunk_path_from_lane rand scenario k c :
  Run.chunks (generateRun rand scenario) !! k = Some c ->
  0 <= rand (4 * k + 1)%nat -> rand (4 * k + 1)%nat < 1 ->
  let pathOptions :=
    resolvePathOptions
      (lookupConfig (Scenario.priorityConfig scenario) (Chunk.priority c)) in
  exists base alt,
    base ∈ pathOptions /\ alt ∈ pathOptions /\
    Chunk.path c =
      Some (match Chunk.status c with
            | retransmit => base +:+ " → " +:+ alt
            | _ => base
            end).
Proof.
  intros (p & _ & ->)%generateRun_lookup H0 H1. cbv zeta.
  rewrite chunkAt_priority. unfold chunkAt, chunkFromDraws.
  cbn [Chunk.path Chunk.status].
  set (opts := resolvePathOptions _).
  destruct (Array_get_unit_draw opts _ H0 H1) as (base & -> & Hb);
    [apply resolvePathOptions_nonempty|].
  destruct (chooseAlternate_elem opts base Hb) as (alt & -> & Ha).
  exists base, alt. repeat split; [done | done |].
  destruct (statusOfRoll p _); reflexivity.
Qed.

Lemma chunk_path_from_lane_witness :
  exists base alt,
    base ∈ ["Trackside 5G"; "Low-Earth Orbit"] /\
    alt ∈ ["Trackside 5G"; "Low-Earth Orbit"] /\
    Chunk.path (chunkAt (fun _ => 0.09) (Scenario.priorityConfig motorsport)
                  0 "P0")
    = Some (base +:+ " → " +:+ alt).
Proof.
  apply (chunk_path_from_lane (fun _ => 0.09) motorsport 0%nat
           (chunkAt (fun _ => 0.09) (Scenario.priorityConfig motorsport) 0 "P0"));
    vm_compute; first [reflexivity | discriminate].
Defined.

(** X11. In a lane whose candidate paths are non-empty names, two of them
    different, a retransmitted chunk really changes path: its path is
    [base → alt] with [alt] another candidate than [base]. *)
Theorem retransmit_switches_path rand scenario k c :
  Run.chunks (generateRun rand scenario) !! k = Some c ->
  Chunk.status c = retransmit ->
  0 <= rand (4 * k + 1)%nat -> rand (4 * k + 1)%nat < 1 ->
  let pathOptions :=
    resolvePathOptions
      (lookupConfig (Scenario.priorityConfig scenario) (Chunk.priority c)) in
  Forall (fun p => p <> EmptyString) pathOptions ->
  (exists q1 q2, q1 ∈ pathOptions /\ q2 ∈ pathOptions /\ q1 <> q2) ->
  exists base alt,
    base ∈ pathOptions /\ alt ∈ pathOptions /\ alt <> base /\
    Chunk.path c = Some (base +:+ " → " +:+ alt).
Proof.
  intros (p & _ & ->)%generateRun_lookup. cbv zeta.
  rewrite chunkAt_priority. unfold chunkAt, chunkFromDraws.
  cbn [Chunk.path Chunk.status].
  set (opts := resolvePathOptions _). intros -> H0 H1 Hnamed (q1 & q2 & Hq1 & Hq2 & Hne).
  destruct (Array_get_unit_draw opts _ H0 H1) as (base & -> & Hb);
    [apply resolvePathOptions_nonempty|].
  rewrite (chooseAlternate_named opts base Hnamed). unfold chooseFallback.
  assert (Hex : exists q, q ∈ opts /\ negb (String.eqb q base) = true).
  { destruct (String.eqb_spec q1 base) as [->|Hn1].
    - exists q2. split; [done|]. apply negb_true_iff, String.eqb_neq. congruence.
    - exists q1. split; [done|]. now apply negb_true_iff, String.eqb_neq. }
  destruct Hex as (q & Hq & Hpq).
  destruct (Array_find_first (fun p => negb (String.eqb p base)) opts q Hq Hpq)
    as [alt Halt]. rewrite Halt.
  apply Array_find_Some in Halt as [Hin Hp].
  exists base, alt. repeat split; [done | done |].
  now apply negb_true_iff, String.eqb_neq in Hp.
Qed.

Lemma retransmit_switches_path_witness :
  exists base alt,
    base ∈ ["Trackside 5G"; "Low-Earth Orbit"] /\
    alt ∈ ["Trackside 5G"; "Low-Earth Orbit"] /\ alt <> base /\
    Chunk.path (chunkAt (fun _ => 0.09) (Scenario.priorityConfig motorsport)
                  0 "P0")
    = Some (base +:+ " → " +:+ alt).
Proof.
  apply (retransmit_switches_path (fun _ => 0.09) motorsport 0%nat
           (chunkAt (fun _ => 0.09) (Scenario.priorityConfig motorsport) 0 "P0")).
  - vm_compute. reflexivity.
  - vm_compute. reflexivity.
  - vm_compute. discriminate.
  - vm_compute. reflexivity.
  - repeat constructor; discriminate.
  - exists "Trackside 5G", "Low-Earth Orbit".
    split; [left | split; [right; left | discriminate]].
Defined.

(** X12. In a lane that resolves to a single candidate path [p], every
    chunk travels over [p] and a retransmitted chunk is displayed as
    [p → p]; a lane whose configuration has no [pathOptions], or an empty
    array, is such a lane with [p] the default Primary link. *)
Theorem single_path_lane rand scenario k c :
  Run.chunks (generateRun rand scenario) !! k = Some c ->
  0 <= rand (4 * k + 1)%nat -> rand (4 * k + 1)%nat < 1 ->
  let config :=
    lookupConfig (Scenario.priorityConfig scenario) (Chunk.priority c) in
  (forall p,
     resolvePathOptions config = [p] ->
     Chunk.path c =
       Some (match Chunk.status c with
             | retransmit => p +:+ " → " +:+ p
             | _ => p
             end)) /\
  (config ≫= LaneConfig.pathOptions = None \/
   config ≫= LaneConfig.pathOptions = Some [] ->
   Chunk.path c =
     Some (match Chunk.status c with
           | retransmit => "Primary link → Primary link"
           | _ => "Primary link"
           end)).
Proof.
  intros (q & _ & ->)%generateRun_lookup H0 H1. cbv zeta.
  rewrite chunkAt_priority.
  assert (Hsingle : forall p,
            resolvePathOptions (lookupConfig (Scenario.priorityConfig scenario) q)
            = [p] ->
            Chunk.path (chunkAt rand (Scenario.priorityConfig scenario) k q) =
            Some (match Chunk.status
                          (chunkAt rand (Scenario.priorityConfig scenario) k q)
                  with
                  | retransmit => p +:+ " → " +:+ p
                  | _ => p
                  end)).
  { intros p Hp. unfold chunkAt. rewrite Hp.
    destruct (statusOfRoll q (rand (4 * k)%nat)) eqn:Hs;
      try (unfold chunkFromDraws; cbn [Chunk.path Chunk.status length];
           rewrite Hs, Qfloor_unit
             by (change (inject_Z (Z.of_nat 1)) with 1; lra);
           reflexivity).
    rewrite single_path_retransmit by assumption.
    unfold chunkFromDraws. cbn [Chunk.status]. now rewrite Hs. }
  split; [exact Hsingle|].
  intros Hopts. apply (Hsingle "Primary link").
  unfold resolvePathOptions. now destruct Hopts as [-> | ->].
Qed.

Lemma single_path_lane_witness :
  let rand := fun _ : nat => 0.09 in
  let scenario := Scenario.mk ∅ [Bucket.mk "P0" 1] in
  Chunk.path (chunkAt rand ∅ 0 "P0") = Some "Primary link → Primary link" /\
  Chunk.path (chunkAt rand ∅ 0 "P0")
  = Some ("Primary link" +:+ " → " +:+ "Primary link").
Proof.
  intros rand scenario.
  destruct (single_path_lane rand scenario 0%nat (chunkAt rand ∅ 0 "P0"))
    as [H1 H2]; [vm_compute; reflexivity | vm_compute; discriminate
                | vm_compute; reflexivity |].
  split; [exact (H2 (or_introl eq_refl)) | exact (H1 "Primary link" eq_refl)].
Defined.

(** X13. With a height draw in [0,1), the height of every chunk lies
    between 45 and 100. *)
Theorem chunk_height_range rand scenario k c :
  Run.chunks (generateRun rand scenario) !! k = Some c ->
  0 <= rand (4 * k + 3)%nat -> rand (4 * k + 3)%nat < 1 ->
  45 <= Chunk.height c /\ Chunk.height c <= 100.
Proof.
  intros (p & _ & ->)%generateRun_lookup H0 H1.
  unfold chunkAt, chunkFromDraws. cbn [Chunk.height]. lra.
Qed.

Lemma chunk_height_range_witness :
  let c := chunkAt (fun _ => 0.17) (Scenario.priorityConfig motorsport) 0 "P0" in
  45 <= Chunk.height c /\ Chunk.height c <= 100.
Proof.
  intros c.
  apply (chunk_height_range (fun _ => 0.17) motorsport 0%nat c);
    vm_compute; first [reflexivity | discriminate].
Defined.

(** X15. Chunks of the same priority carry the same FEC label and the same
    lane label, and the FEC label of a chunk is never the empty string. *)
Theorem lane_labels_uniform rand scenario c c' :
  c ∈ Run.chunks (generateRun rand scenario) ->
  c' ∈ Run.chunks (generateRun rand scenario) ->
  Chunk.fec c <> EmptyString /\
  (Chunk.priority c = Chunk.priority c' ->
   Chunk.fec c = Chunk.fec c' /\ Chunk.label c = Chunk.label c').
Proof.
  intros (k & p & ->)%generateRun_elem_of (k' & p' & ->)%generateRun_elem_of.
  rewrite !chunkAt_priority. unfold chunkAt, chunkFromDraws.
  cbn [Chunk.fec Chunk.label]. split.
  - unfold resolveFec, orDefault.
    destruct (lookupConfig _ p ≫= LaneConfig.fec) as [[|a s]|]; discriminate.
  - intros ->. split; reflexivity.
Qed.

Lemma lane_labels_uniform_witness :
  let rand := fun _ : nat => 0.17 in
  let pc := Scenario.priorityConfig motorsport in
  Chunk.fec (chunkAt rand pc 18 "P1") <> EmptyString /\
  Chunk.fec (chunkAt rand pc 18 "P1") = Chunk.fec (chunkAt rand pc 19 "P1") /\
  Chunk.label (chunkAt rand pc 18 "P1") = Chunk.label (chunkAt rand pc 19 "P1").
Proof.
  intros rand pc.
  destruct (lane_labels_uniform rand motorsport
              (chunkAt rand pc 18 "P1") (chunkAt rand pc 19 "P1")) as [H1 H2].
  - apply (list_elem_of_lookup_2 _ 18%nat). vm_compute. reflexivity.
  - apply (list_elem_of_lookup_2 _ 19%nat). vm_compute. reflexivity.
  - split; [exact H1 | apply H2; reflexivity].
Defined.

(** ** Duration *)











(** ** Loss rate and delivered share *)

(** X18. The loss rate is the complement of the delivered share: when total
    is positive, [lossRate + delivered / total = 1]; and the loss rate is 0
    exactly when every chunk was delivered cleanly. *)
Theorem lossRate_complement rand scenario :
  let run := generateRun rand scenario in
  let st := Run.stats run in
  ((0 < Stats.total st)%nat ->
   Run.lossRate run
   + inject_Z (Z.of_nat (Stats.delivered st))
     / inject_Z (Z.of_nat (Stats.total st)) == 1) /\
  (Run.lossRate run == 0 <-> Stats.delivered st = Stats.total st).
Proof.
  cbv zeta. pose proof (finalState_counters_total rand scenario) as Hsum.
  rewrite generateRun_eq. cbv zeta in *.
  cbn [Run.lossRate Run.stats Run.chunks].
  unfold computeLossRate, set_total.
  cbn [Stats.total Stats.recovered Stats.retransmit Stats.dropped
       Stats.delivered].
  set (n := length (chunks (finalState rand scenario))) in *.
  set (st := stats (finalState rand scenario)) in *.
  set (l := (Stats.recovered st + Stats.retransmit st + Stats.dropped st)%nat).
  assert (Hn : inject_Z (Z.of_nat n) ==
               inject_Z (Z.of_nat l) + inject_Z (Z.of_nat (Stats.delivered st))).
  { rewrite <- inject_Z_plus, <- Nat2Z.inj_add.
    replace (l + Stats.delivered st)%nat with n by (unfold l; lia).
    reflexivity. }
  destruct (Nat.ltb_spec 0 n) as [Hpos|Hz].
  - pose proof (inject_nat_pos n Hpos) as HN. split.
    + intros _. rewrite Hn in HN |- *. field. lra.
    + split.
      * intros H0.
        assert (Hl : inject_Z (Z.of_nat l) == inject_Z 0).
        { assert (E : inject_Z (Z.of_nat l) ==
                      inject_Z (Z.of_nat l) / inject_Z (Z.of_nat n)
                      * inject_Z (Z.of_nat n)) by (field; lra).
          rewrite E, H0. ring. }
        apply (proj1 (inject_Z_injective _ _)) in Hl. unfold l in Hl. lia.
      * intros Hd.
        replace l with 0%nat by (unfold l; lia).
        change (inject_Z (Z.of_nat 0)) with 0. field. lra.
  - split; [lia|]. split; [lia | reflexivity].
Qed.

Lemma lossRate_complement_witness :
  Run.lossRate (generateRun (fun _ => 0.17) motorsport) + (18 # 66) == 1.
Proof.
  apply (proj1 (lossRate_complement (fun _ => 0.17) motorsport)).
  vm_compute. lia.
Defined.

(** ** Display *)

(** X19. For a chunk of a run over [scenario], the name [stripeLabel] shows
    is the [label] field of the chunk when the priority of the chunk is
    configured.  For an unconfigured priority [stripeLabel] shows the
    priority itself; the [label] field is then taken from the P0 entry (or
    is the priority when P0 has no non-empty label), unless the priority is
    the name of a member inherited from [Object.prototype], in which case
    the [label] field is the priority as well. *)
Theorem stripeName_vs_chunk_label rand scenario c :
  c ∈ Run.chunks (generateRun rand scenario) ->
  let pc := Scenario.priorityConfig scenario in
  (is_Some (pc !! Chunk.priority c) -> stripeName c scenario = Chunk.label c) /\
  (pc !! Chunk.priority c = None ->
   stripeName c scenario = Chunk.priority c /\
   (inherited (Chunk.priority c) = false ->
    Chunk.label c =
      orDefault (pc !! "P0" ≫= LaneConfig.label) (Chunk.priority c)) /\
   (inherited (Chunk.priority c) = true ->
    Chunk.label c = Chunk.priority c)).
Proof.
  intros (k & p & ->)%generateRun_elem_of. cbv zeta. unfold stripeName.
  rewrite chunkAt_priority. unfold chunkAt, chunkFromDraws. cbn [Chunk.label].
  unfold lookupConfig, Object_get. split.
  - intros [cfg Hcfg]. now rewrite Hcfg.
  - intros Hnone. rewrite Hnone. split; [reflexivity|].
    split; intros ->; reflexivity.
Qed.

Lemma stripeName_vs_chunk_label_witness :
  let rand := fun _ : nat => 0.5 in
  let c := chunkAt rand (Scenario.priorityConfig motorsport) 0 "P0" in
  let c' := chunkAt rand (Scenario.priorityConfig unconfiguredScenario) 0 "P3" in
  let c'' := chunkAt rand manufacturingConfig 0 "toString" in
  stripeName c motorsport = Chunk.label c /\
  (stripeName c' unconfiguredScenario = "P3" /\
   Chunk.label c' = "P0 — Strategy Delta") /\
  (stripeName c'' (Scenario.mk manufacturingConfig [Bucket.mk "toString" 1])
   = "toString" /\ Chunk.label c'' = "toString").
Proof.
  intros rand c c' c''.
  destruct (stripeName_vs_chunk_label rand motorsport c) as [H1 _];
    [apply (list_elem_of_lookup_2 _ 0%nat); vm_compute; reflexivity|].
  destruct (stripeName_vs_chunk_label rand unconfiguredScenario c')
    as [_ H2];
    [apply (list_elem_of_lookup_2 _ 0%nat); vm_compute; reflexivity|].
  destruct (stripeName_vs_chunk_label rand
              (Scenario.mk manufacturingConfig [Bucket.mk "toString" 1]) c'')
    as [_ H3];
    [apply (list_elem_of_lookup_2 _ 0%nat); vm_compute; reflexivity|].
  split; [|split].
  - apply H1. vm_compute. now eexists.
  - destruct H2 as (Hn & Hl & _); [vm_compute; reflexivity|].
    split; [exact Hn | apply Hl; vm_compute; reflexivity].
  - destruct H3 as (Hn & _ & Hl); [vm_compute; reflexivity|].
    split; [exact Hn | apply Hl; vm_compute; reflexivity].
Defined.

Lemma pretty_N_char_not_LF x : pretty_N_char x <> Ascii.ascii_of_nat 10.
Proof. unfold pretty_N_char. repeat case_match; discriminate. Qed.

Lemma pretty_N_go_freeOf x s :
  freeOf (Ascii.ascii_of_nat 10) s ->
  freeOf (Ascii.ascii_of_nat 10) (pretty_N_go x s).
Proof.
  revert s. induction (N.lt_wf_0 x) as [x _ IH]. intros s Hs.
  assert (x = 0 \/ 0 < x)%N as [->|Hpos] by lia.
  - now rewrite pretty_N_go_0.
  - rewrite pretty_N_go_step by done. apply IH.
    + now apply N.div_lt.
    + split; [apply pretty_N_char_not_LF | exact Hs].
Qed.

Lemma pretty_nat_freeOf (n : nat) : freeOf (Ascii.ascii_of_nat 10) (pretty n).
Proof.
  unfold pretty, pretty_nat, pretty, pretty_N.
  case_decide; [split; [discriminate | exact I]|].
  now apply pretty_N_go_freeOf.
Qed.

Lemma append_cut a s1 r1 s2 r2 :
  freeOf a s1 -> freeOf a s2 ->
  s1 +:+ String a r1 = s2 +:+ String a r2 -> s1 = s2.
Proof.
  revert s2; induction s1 as [|b s1 IH]; intros [|b' s2]; cbn.
  - reflexivity.
  - intros _ [Hb _] [= <- _]. now destruct Hb.
  - intros [Hb _] _ [= -> _]. now destruct Hb.
  - intros [_ H1] [_ H2] [= -> H]. f_equal. now apply IH.
Qed.

Lemma stripeLabel_id toFixed c scenario c' scenario' :
  stripeLabel toFixed c scenario = stripeLabel toFixed c' scenario' ->
  Chunk.id c = Chunk.id c'.
Proof.
  unfold stripeLabel. cbv zeta. unfold LF. cbn [String.append].
  intros [= H]. apply append_cut in H; [|apply pretty_nat_freeOf ..].
  now apply (inj pretty) in H.
Qed.

(** X20. Whatever [toFixed] prints, the label [stripeLabel] builds starts
    with the id of the chunk on a line of its own, so that two chunks at
    different positions of a run never get the same label. *)
Theorem stripeLabel_distinct toFixed rand scenario k k' c c' :
  Run.chunks (generateRun rand scenario) !! k = Some c ->
  Run.chunks (generateRun rand scenario) !! k' = Some c' ->
  k <> k' ->
  stripeLabel toFixed c scenario <> stripeLabel toFixed c' scenario.
Proof.
  intros (p & _ & ->)%generateRun_lookup (p' & _ & ->)%generateRun_lookup Hk H.
  apply stripeLabel_id in H. rewrite !chunkAt_id in H. congruence.
Qed.

Lemma stripeLabel_distinct_witness :
  let rand := fun _ : nat => 0.5 in
  let toFixed := fun (_ : nat) (x : Q) => pretty (Qfloor (x + 0.5)) in
  stripeLabel toFixed (chunkAt rand (Scenario.priorityConfig motorsport) 0 "P0")
    motorsport <>
  stripeLabel toFixed (chunkAt rand (Scenario.priorityConfig motorsport) 1 "P0")
    motorsport.
Proof.
  intros rand toFixed.
  apply (stripeLabel_distinct toFixed rand motorsport 0 1).
  - vm_compute. reflexivity.
  - vm_compute. reflexivity.
  - discriminate.
Defined.

Lemma pretty_Z_of_nat (n : nat) : pretty (Z.of_nat n) = pretty n.
Proof. destruct n; reflexivity. Qed.

(** X21. In the summary line of a run, the number of chunks shown as
    secured, [total - dropped], is the number of chunks delivered,
    recovered or retransmitted; it is never negative. *)
Theorem summaryText_secured rand scenario summary :
  let st := Run.stats (generateRun rand scenario) in
  summaryText summary st =
  "Simulated run: "
    +:+ pretty (Stats.delivered st + Stats.recovered st + Stats.retransmit st)%nat
    +:+ "/" +:+ pretty (length (Run.chunks (generateRun rand scenario)))
    +:+ " chunks secured, "
    +:+ pretty (Stats.recovered st) +:+ " repaired with FEC, "
    +:+ pretty (Stats.retransmit st) +:+ " retransmitted. " +:+ summary st.
Proof.
  cbv zeta. pose proof (finalState_counters_total rand scenario) as Hsum.
  rewrite generateRun_eq. cbv zeta in *.
  cbn [Run.stats Run.chunks]. unfold summaryText, set_total. cbv zeta.
  cbn [Stats.total Stats.recovered Stats.retransmit Stats.dropped
       Stats.delivered].
  rewrite <- Hsum, <- Nat2Z.inj_sub by lia. rewrite pretty_Z_of_nat.
  do 2 f_equal. f_equal. lia.
Qed.

Lemma dropped_pos_iff rand scenario :
  Stats.dropped (Run.stats (generateRun rand scenario)) <> 0%nat <->
  exists c, c ∈ Run.chunks (generateRun rand scenario) /\
            Chunk.status c = dropped /\ Chunk.priority c <> "P0".
Proof.
  pose proof (finalState_stats rand scenario) as (_ & _ & _ & Hx).
  cbv zeta in Hx. rewrite generateRun_eq. cbv zeta.
  cbn [Run.stats Run.chunks set_total Stats.dropped]. rewrite Hx.
  unfold countStatus.
  assert (Hchunks : forall c, c ∈ chunks (finalState rand scenario) ->
                    Chunk.status c = dropped -> Chunk.priority c <> "P0").
  { intros c Hc Hs Hp.
    assert (Hc' : c ∈ Run.chunks (generateRun rand scenario))
      by now rewrite generateRun_eq.
    apply generateRun_elem_of in Hc' as (k & p & ->).
    rewrite chunkAt_priority in Hp. subst p.
    now apply (statusOfRoll_P0 (rand (4 * k)%nat)). }
  split.
  - intros Hne.
    destruct (filter _ (chunks (finalState rand scenario))) as [|c cs] eqn:E;
      [done|].
    assert (Hin : c ∈ filter (fun c => Chunk.status c = dropped)
                      (chunks (finalState rand scenario)))
      by (rewrite E; left).
    apply list_elem_of_filter in Hin as [Hs Hin]. eauto.
  - intros (c & Hin & Hs & _) Hlen.
    assert (Hf : c ∈ filter (fun c => Chunk.status c = dropped)
                     (chunks (finalState rand scenario)))
      by now apply list_elem_of_filter.
    apply nil_length_inv in Hlen. rewrite Hlen in Hf.
    now apply not_elem_of_nil in Hf.
Qed.

(** X22. Each of the three [summary] methods answers its follow-up message
    exactly when some chunk of the run was dropped, and such a chunk is
    never one of lane P0; otherwise it answers its success message. *)
Theorem summary_reports_lower_lane_drop rand scenario :
  let run := generateRun rand scenario in
  let lost :=
    exists c, c ∈ Run.chunks run /\
              Chunk.status c = dropped /\ Chunk.priority c <> "P0" in
  (motorsport_summary (Run.stats run) =
     "Manual follow-up required — archive footage needs a resend." <-> lost) /\
  (mobility_summary (Run.stats run) =
     "Flag a depot stop — a few pods missed their update window." <-> lost) /\
  (manufacturing_summary (Run.stats run) =
     "Alert the OT engineer — resend the ESG ledger chunks over fiber."
   <-> lost).
Proof.
  cbv zeta. rewrite <- dropped_pos_iff.
  unfold motorsport_summary, mobility_summary, manufacturing_summary.
  destruct (Nat.eqb_spec (Stats.dropped (Run.stats (generateRun rand scenario))) 0)
    as [->|Hne]; repeat split; try done.
Qed.

(** ** Duration of a run with lanes *)


